(** * Nebula: gesture consensus, audio intensity and particle morphing

    A shallow embedding of the algorithmic core of the Nebula particle
    system: the hand-sample callback of [App] (gesture buffer, consensus,
    shape change, audio intensity) and the per-particle arithmetic of
    [Nebula3D] (target generation, interaction point, position update).

    Numbers.  A JavaScript number is modelled by an exact number: a
    rational ([Q]) where the code only adds, multiplies, divides and
    compares (every finite double is a rational), a real ([R]) where it
    calls [Math.sqrt], [Math.sin], [Math.cos], [Math.tan] or [Math.acos].
    Rounding, the infinities and NaN are outside the model.  A finger
    count is a natural number.  [Math.random()] is a value read from a
    stream of draws, each in [0,1).

    React.  The state of [App] is passed explicitly.  An updater handed
    to a state setter is queued and run by the render that follows the
    callback which queued it; a hand sample is handled together with
    that render. *)

From Stdlib Require Import List Arith Bool Lia ZArith QArith Qminmax.
From Stdlib Require Import Lqa Reals Lra Psatz.
Import ListNotations.

Set Warnings "-abstract-large-number".

Close Scope Q_scope.
Close Scope R_scope.
Open Scope nat_scope.

(** ** types.ts *)

Inductive ParticleShape : Set :=
| SPHERE | HEART | FLOWER | SATURN | FIREWORKS.

Definition shape_eqb (a b : ParticleShape) : bool :=
  match a, b with
  | SPHERE, SPHERE | HEART, HEART | FLOWER, FLOWER
  | SATURN, SATURN | FIREWORKS, FIREWORKS => true
  | _, _ => false
  end.

Record HandData : Type := mkHandData {
  fingersUp : nat;
  isPinching : bool;
  pinchDistance : Q;
  handPosition : Q * Q;      (* normalized 0-1 *)
  detected : bool
}.

(** ** App: the hand-sample callback *)

Module App.

Local Open Scope Q_scope.

(** Gesture buffer to prevent flickering. *)
Definition GESTURE_BUFFER_SIZE : nat := 15.

(** The numeric value of an integer count. *)
Definition num (n : nat) : Q := inject_Z (Z.of_nat n).

(** What is asked of the audio manager, in call order. *)
Inductive AudioCall : Type :=
| updateInteraction (intensity : Q)
| playShapeChangeSound.

(** The state the callback reads and writes: the [currentShape] and
    [handData] React states, [gestureBufferRef.current], and whether
    [audioManagerRef.current] is set (every call on it is guarded by
    [?.]). *)
Record State : Type := mkState {
  currentShape : ParticleShape;
  handData : HandData;
  gestureBuffer : list nat;
  audioManager : bool
}.

Definition setHandData (d : HandData) (st : State) : State :=
  mkState (currentShape st) d (gestureBuffer st) (audioManager st).

Definition setGestureBuffer (b : list nat) (st : State) : State :=
  mkState (currentShape st) (handData st) b (audioManager st).

(** [audioManagerRef.current?.f(...)]. *)
Definition audio (st : State) (c : AudioCall) : list AudioCall :=
  if audioManager st then [c] else [].

(** [buffer.push(n)] and [buffer.shift()]. *)
Definition push (buffer : list nat) (n : nat) : list nat := buffer ++ [n].
Definition shift (buffer : list nat) : list nat := tl buffer.

(** "Add count to buffer": [buffer.push(data.fingersUp)], then
    [if (buffer.length > GESTURE_BUFFER_SIZE) buffer.shift()]. *)
Definition addToBuffer (buffer : list nat) (n : nat) : list nat :=
  let buffer := push buffer n in
  if (GESTURE_BUFFER_SIZE <? length buffer)%nat then shift buffer
  else buffer.

(** [counts[n] = (counts[n] || 0) + 1] on an object with integer keys,
    kept as the list [Object.entries] gives: keys in ascending order. *)
Fixpoint bump (n : nat) (counts : list (nat * nat)) : list (nat * nat) :=
  match counts with
  | [] => [(n, 1%nat)]
  | (k, c) :: rest =>
      if (n <? k)%nat then (n, 1%nat) :: counts
      else if (n =? k)%nat then (k, S c) :: rest
      else (k, c) :: bump n rest
  end.

(** [counts[k] || 0]. *)
Fixpoint getCount (k : nat) (counts : list (nat * nat)) : nat :=
  match counts with
  | [] => 0%nat
  | (k', c) :: rest => if (k =? k')%nat then c else getCount k rest
  end.

(** Keys strictly ascending, as [Object.entries] lists integer keys. *)
Fixpoint ascendingFrom (lo : nat) (counts : list (nat * nat)) : Prop :=
  match counts with
  | [] => True
  | (k, _) :: rest => (lo <= k)%nat /\ ascendingFrom (S k) rest
  end.

(** [buffer.forEach(n => counts[n] = (counts[n] || 0) + 1)]. *)
Definition countAll (buffer : list nat) : list (nat * nat) :=
  fold_left (fun counts n => bump n counts) buffer [].

Definition Qltb (a b : Q) : bool := negb (Qle_bool b a).

(** [count > GESTURE_BUFFER_SIZE * 0.8]. *)
Definition overThreshold (count : nat) : bool :=
  Qltb (num GESTURE_BUFFER_SIZE * 0.8) (num count).

(** [Object.entries(counts).find(([_, count]) => ...)]. *)
Definition findConsensus (counts : list (nat * nat)) : option (nat * nat) :=
  find (fun e => overThreshold (snd e)) counts.

(** The logic mapping of [onHandResults]:
    2->Flower, 3->Saturn, 4->Heart, 5->Fireworks, else [currentShape]. *)
Definition mapFingers (currentShape : ParticleShape) (fingers : nat)
  : ParticleShape :=
  if (fingers =? 2)%nat then FLOWER
  else if (fingers =? 3)%nat then SATURN
  else if (fingers =? 4)%nat then HEART
  else if (fingers =? 5)%nat then FIREWORKS
  else currentShape.

(** A state update handed to a React setter as a function: React keeps
    it in a queue and runs it when it next renders the component, on the
    state of that moment. *)
Definition Updater : Type := State -> State * list AudioCall.

(** [changeShape shape] is the updater [prev => ...] that [changeShape]
    hands to [setCurrentShape].  When React runs it, it compares with the
    state's own shape [prev], and on a change plays the sound and resets
    the buffer. *)
Definition changeShape (shape : ParticleShape) : Updater :=
  fun st =>
  let prev := currentShape st in
  if negb (shape_eqb prev shape) then
    (mkState shape (handData st) [] (audioManager st),
     audio st playShapeChangeSound)
  else (st, []).

(** The render that follows a callback: the queued updaters run in order
    on the state the callback left, and what they ask of the audio manager
    comes after the calls the callback made itself. *)
Definition render (queue : list Updater) (r : State * list AudioCall)
  : State * list AudioCall :=
  fold_left (fun r u => let '(st, calls) := u (fst r) in (st, snd r ++ calls))
            queue r.

Definition Math_max (a b : Q) : Q := if Qle_bool a b then b else a.
Definition Math_min (a b : Q) : Q := if Qle_bool a b then a else b.

(** The intensity computed for a detected hand. *)
Definition pinchIntensity (data : HandData) : Q :=
  if isPinching data then 1      (* the literal 1.0 *)
  else
    let dist := Math_min (Math_max (pinchDistance data) 0.05) 0.3 in
    1 - ((dist - 0.05) / 0.25).

(** [onHandResults] for one hand sample, up to and including the render
    it causes.  [closureShape] is the [currentShape] captured by the
    closure ([useCallback] with dependency [currentShape]); the state is
    threaded explicitly.  The call of [changeShape] only queues its
    updater: [setHandData] has queued an update of the component before,
    so React does not run the updater on the spot but at the render that
    follows, when the body of the callback, its [updateInteraction]
    included, has run.  That render is taken to happen before the next
    hand sample is handled. *)
Definition onHandResults (closureShape : ParticleShape)
    (st : State) (data : HandData) : State * list AudioCall :=
  let st := setHandData data st in
  if detected data then
    let buffer := addToBuffer (gestureBuffer st) (fingersUp data) in
    let st := setGestureBuffer buffer st in
    let counts := countAll buffer in
    let queue :=
      match findConsensus counts with
      | Some consensus =>
          let fingers := fst consensus in
          let newShape := mapFingers closureShape fingers in
          if negb (shape_eqb newShape closureShape)
          then [changeShape newShape]
          else []
      | None => []
      end in
    let intensity := pinchIntensity data in
    render queue (st, audio st (updateInteraction intensity))
  else
    render [] (st, audio st (updateInteraction 0)).

(** The callback is registered with the hand tracker once, in
    [handleStart], when the shape is still [SPHERE]; a callback re-created
    by [useCallback] captures the shape of the state.  Both are covered. *)
Definition closureOf (st : State) (c : ParticleShape) : Prop :=
  c = SPHERE \/ c = currentShape st.

(** The shape change committed by a step, read off the two states. *)
Definition committed (st st' : State) : option ParticleShape :=
  if shape_eqb (currentShape st) (currentShape st') then None
  else Some (currentShape st').

(** The spec's vocabulary, used to state the properties below: the
    gesture-to-shape table, the frequency of the most frequent value of a
    window, and the clamp of a value to an interval. *)
Definition gestureShape (fingers : nat) : option ParticleShape :=
  match fingers with
  | 2%nat => Some FLOWER
  | 3%nat => Some SATURN
  | 4%nat => Some HEART
  | 5%nat => Some FIREWORKS
  | _ => None
  end.

Definition frequency (window : list nat) (k : nat) : nat :=
  count_occ Nat.eq_dec window k.

Definition modeFrequency (window : list nat) : nat :=
  list_max (map (frequency window) window).

Definition clamp (x lo hi : Q) : Q :=
  if Qltb x lo then lo else if Qltb hi x then hi else x.

(** Feeding a sequence of samples to the callback whose closure shape is
    [pick st]; each step is logged as the committed change (if any) and
    the buffer it leaves. *)
Fixpoint feed (pick : State -> ParticleShape) (st : State)
    (samples : list HandData) : list (option ParticleShape * list nat) :=
  match samples with
  | [] => []
  | d :: rest =>
      let st' := fst (onHandResults (pick st) st d) in
      (committed st st', gestureBuffer st') :: feed pick st' rest
  end.

(** Sample inputs: a detected, open hand at the centre of the image
    with [n] fingers up; the sample the tracker sends when no hand is
    found; the state of the application when the tracker starts. *)
Definition sampleOf (n : nat) : HandData :=
  mkHandData n false 1 (0.5, 0.5) true.

Definition lostHand : HandData :=
  mkHandData 0 false 1 (0.5, 0.5) false.

Definition startState : State := mkState SPHERE lostHand [] true.

End App.

(** ** Nebula3D: target generation, interaction point, position update *)

Module Nebula3D.

Local Open Scope R_scope.

Definition PARTICLE_COUNT : nat := 15000.

(** [THREE.Vector3]; also one particle's three consecutive floats
    [a[i3], a[i3+1], a[i3+2]] of a position or target array. *)
Record Vector3 : Type := vec3 { vx : R; vy : R; vz : R }.

(** *** The random source *)

(** The draws [Math.random()] will return, next one first. *)
Definition RandomSource : Type := nat -> R.

Definition Rand (A : Type) : Type := RandomSource -> A * RandomSource.

Definition ret {A} (a : A) : Rand A := fun s => (a, s).

Definition bind {A B} (m : Rand A) (k : A -> Rand B) : Rand B :=
  fun s => let (a, s') := m s in k a s'.

Notation "x <- m ;; k" := (bind m (fun x => k))
  (at level 61, m at next level, right associativity).

Definition Math_random : Rand R :=
  fun s => (s 0%nat, fun n => s (S n)).

(** Every draw lies in [0,1). *)
Definition unitDraws (s : RandomSource) : Prop := forall n, 0 <= s n < 1.

(** *** calculateTargetPositions *)

(** The body of the [switch (type)] for one particle: the [(x, y, z)]
    written to [positions[i3 .. i3+2]]. *)
Definition shapePoint (type : ParticleShape) : Rand Vector3 :=
  match type with
  | SPHERE =>
      u1 <- Math_random ;; let r := 25 + u1 * 2 in
      u2 <- Math_random ;; let theta := u2 * PI * 2 in
      u3 <- Math_random ;; let phi := acos (2 * u3 - 1) in
      ret (vec3 (r * sin phi * cos theta)
                (r * sin phi * sin theta)
                (r * cos phi))
  | HEART =>
      u1 <- Math_random ;; let t := u1 * PI * 2 in
      let scale := 1.5 in
      u2 <- Math_random ;; let thick := (u2 - 0.5) * 5 in
      ret (vec3 (scale * (16 * (sin t) ^ 3))
                (scale * (13 * cos t - 5 * cos (2 * t)
                          - 2 * cos (3 * t) - cos (4 * t)))
                thick)
  | FLOWER =>
      let k := 4 in
      u1 <- Math_random ;; let theta := u1 * PI * 2 in
      let rBase := cos (k * theta) in
      u2 <- Math_random ;;
      let r := (15 + Rabs rBase * 20) * (0.8 + u2 * 0.4) in
      u3 <- Math_random ;;
      ret (vec3 (r * cos theta) (r * sin theta) ((u3 - 0.5) * 10))
  | SATURN =>
      u0 <- Math_random ;;
      p <- (if Rgt_dec u0 0.3 then
              u1 <- Math_random ;; let angle := u1 * PI * 2 in
              u2 <- Math_random ;; let dist := 35 + u2 * 15 in
              u3 <- Math_random ;;
              ret (vec3 (dist * cos angle) ((u3 - 0.5) * 2)
                        (dist * sin angle))
            else
              u1 <- Math_random ;; let r := 12 + u1 * 1 in
              u2 <- Math_random ;; let theta := u2 * PI * 2 in
              u3 <- Math_random ;; let phi := acos (2 * u3 - 1) in
              ret (vec3 (r * sin phi * cos theta)
                        (r * sin phi * sin theta)
                        (r * cos phi))) ;;
      let tilt := 0.4 in
      let ty := vy p * cos tilt - vz p * sin tilt in
      let tz := vy p * sin tilt + vz p * cos tilt in
      ret (vec3 (vx p) ty tz)
  | FIREWORKS =>
      u1 <- Math_random ;; let r := u1 * 50 in
      u2 <- Math_random ;; let theta := u2 * PI * 2 in
      u3 <- Math_random ;; let phi := acos (2 * u3 - 1) in
      ret (vec3 (r * sin phi * cos theta)
                (r * sin phi * sin theta)
                (r * cos phi))
  end.

(** The [for] loop: [count] particles, one after the other. *)
Fixpoint fillTargets (type : ParticleShape) (count : nat)
  : Rand (list Vector3) :=
  match count with
  | O => ret []
  | S k =>
      p <- shapePoint type ;;
      ps <- fillTargets type k ;;
      ret (p :: ps)
  end.

(** [calculateTargetPositions]: every entry of the target array is
    overwritten, so the new array does not depend on the old one. *)
Definition calculateTargetPositions (type : ParticleShape)
  : Rand (list Vector3) :=
  fillTargets type PARTICLE_COUNT.

(** *** three.js vector and matrix arithmetic *)

(** Modelled from the spec: [THREE.Matrix4], the 4x4 matrices of the
    camera's view/projection transform (three.js is a dependency, its code
    is not in the repository); [nRC] is the entry of row R, column C.  The
    operations below, down to [unproject], are the three.js operations
    [animate] calls, as three.js computes them. *)
Record Matrix4 : Type := mat4 {
  n11 : R; n12 : R; n13 : R; n14 : R;
  n21 : R; n22 : R; n23 : R; n24 : R;
  n31 : R; n32 : R; n33 : R; n34 : R;
  n41 : R; n42 : R; n43 : R; n44 : R
}.

(** Modelled from the spec: [new THREE.Matrix4()], the world matrix of a
    camera before the renderer first updates it. *)
Definition identity : Matrix4 :=
  mat4 1 0 0 0
       0 1 0 0
       0 0 1 0
       0 0 0 1.

(** Modelled from the spec: [Matrix4.makeTranslation], the world matrix
    of an unrotated camera at [v]. *)
Definition makeTranslation (v : Vector3) : Matrix4 :=
  mat4 1 0 0 (vx v)
       0 1 0 (vy v)
       0 0 1 (vz v)
       0 0 0 1.

(** Modelled from the spec: [Matrix4.multiply], the matrix product. *)
Definition multiply (a b : Matrix4) : Matrix4 :=
  mat4
    (n11 a * n11 b + n12 a * n21 b + n13 a * n31 b + n14 a * n41 b)
    (n11 a * n12 b + n12 a * n22 b + n13 a * n32 b + n14 a * n42 b)
    (n11 a * n13 b + n12 a * n23 b + n13 a * n33 b + n14 a * n43 b)
    (n11 a * n14 b + n12 a * n24 b + n13 a * n34 b + n14 a * n44 b)
    (n21 a * n11 b + n22 a * n21 b + n23 a * n31 b + n24 a * n41 b)
    (n21 a * n12 b + n22 a * n22 b + n23 a * n32 b + n24 a * n42 b)
    (n21 a * n13 b + n22 a * n23 b + n23 a * n33 b + n24 a * n43 b)
    (n21 a * n14 b + n22 a * n24 b + n23 a * n34 b + n24 a * n44 b)
    (n31 a * n11 b + n32 a * n21 b + n33 a * n31 b + n34 a * n41 b)
    (n31 a * n12 b + n32 a * n22 b + n33 a * n32 b + n34 a * n42 b)
    (n31 a * n13 b + n32 a * n23 b + n33 a * n33 b + n34 a * n43 b)
    (n31 a * n14 b + n32 a * n24 b + n33 a * n34 b + n34 a * n44 b)
    (n41 a * n11 b + n42 a * n21 b + n43 a * n31 b + n44 a * n41 b)
    (n41 a * n12 b + n42 a * n22 b + n43 a * n32 b + n44 a * n42 b)
    (n41 a * n13 b + n42 a * n23 b + n43 a * n33 b + n44 a * n43 b)
    (n41 a * n14 b + n42 a * n24 b + n43 a * n34 b + n44 a * n44 b).

Definition det3 (a b c d e f g h i : R) : R :=
  a * (e * i - f * h) - b * (d * i - f * g) + c * (d * h - e * g).

(** Modelled from the spec: [Matrix4.invert], by cofactors; [cofRC] is
    the cofactor of row R and column C. *)
Section Cofactors.
Variable m : Matrix4.
Definition cof11 := det3 (n22 m) (n23 m) (n24 m) (n32 m) (n33 m) (n34 m) (n42 m) (n43 m) (n44 m).
Definition cof12 := - det3 (n21 m) (n23 m) (n24 m) (n31 m) (n33 m) (n34 m) (n41 m) (n43 m) (n44 m).
Definition cof13 := det3 (n21 m) (n22 m) (n24 m) (n31 m) (n32 m) (n34 m) (n41 m) (n42 m) (n44 m).
Definition cof14 := - det3 (n21 m) (n22 m) (n23 m) (n31 m) (n32 m) (n33 m) (n41 m) (n42 m) (n43 m).
Definition cof21 := - det3 (n12 m) (n13 m) (n14 m) (n32 m) (n33 m) (n34 m) (n42 m) (n43 m) (n44 m).
Definition cof22 := det3 (n11 m) (n13 m) (n14 m) (n31 m) (n33 m) (n34 m) (n41 m) (n43 m) (n44 m).
Definition cof23 := - det3 (n11 m) (n12 m) (n14 m) (n31 m) (n32 m) (n34 m) (n41 m) (n42 m) (n44 m).
Definition cof24 := det3 (n11 m) (n12 m) (n13 m) (n31 m) (n32 m) (n33 m) (n41 m) (n42 m) (n43 m).
Definition cof31 := det3 (n12 m) (n13 m) (n14 m) (n22 m) (n23 m) (n24 m) (n42 m) (n43 m) (n44 m).
Definition cof32 := - det3 (n11 m) (n13 m) (n14 m) (n21 m) (n23 m) (n24 m) (n41 m) (n43 m) (n44 m).
Definition cof33 := det3 (n11 m) (n12 m) (n14 m) (n21 m) (n22 m) (n24 m) (n41 m) (n42 m) (n44 m).
Definition cof34 := - det3 (n11 m) (n12 m) (n13 m) (n21 m) (n22 m) (n23 m) (n41 m) (n42 m) (n43 m).
Definition cof41 := - det3 (n12 m) (n13 m) (n14 m) (n22 m) (n23 m) (n24 m) (n32 m) (n33 m) (n34 m).
Definition cof42 := det3 (n11 m) (n13 m) (n14 m) (n21 m) (n23 m) (n24 m) (n31 m) (n33 m) (n34 m).
Definition cof43 := - det3 (n11 m) (n12 m) (n14 m) (n21 m) (n22 m) (n24 m) (n31 m) (n32 m) (n34 m).
Definition cof44 := det3 (n11 m) (n12 m) (n13 m) (n21 m) (n22 m) (n23 m) (n31 m) (n32 m) (n33 m).

Definition determinant : R :=
  n11 m * cof11 + n12 m * cof12 + n13 m * cof13 + n14 m * cof14.

(** The adjugate over the determinant, and the zero matrix when the
    determinant is 0. *)
Definition invert : Matrix4 :=
  let det := determinant in
  if Req_dec_T det 0 then
    mat4 0 0 0 0 0 0 0 0 0 0 0 0 0 0 0 0
  else
    let detInv := 1 / det in
    mat4 (cof11 * detInv) (cof21 * detInv) (cof31 * detInv) (cof41 * detInv)
         (cof12 * detInv) (cof22 * detInv) (cof32 * detInv) (cof42 * detInv)
         (cof13 * detInv) (cof23 * detInv) (cof33 * detInv) (cof43 * detInv)
         (cof14 * detInv) (cof24 * detInv) (cof34 * detInv) (cof44 * detInv).
End Cofactors.

(** Modelled from the spec:
    [Matrix4.makePerspective(left, right, top, bottom, near, far)], the
    projection transform of a frustum. *)
Definition makePerspective (left right top bottom near far : R) : Matrix4 :=
  let x := 2 * near / (right - left) in
  let y := 2 * near / (top - bottom) in
  let a := (right + left) / (right - left) in
  let b := (top + bottom) / (top - bottom) in
  let c := - (far + near) / (far - near) in
  let d := - 2 * far * near / (far - near) in
  mat4 x 0 a 0
       0 y b 0
       0 0 c d
       0 0 (-1) 0.

(** Modelled from the spec: [Vector3.applyMatrix4], the transform of a
    point with the perspective divide. *)
Definition applyMatrix4 (v : Vector3) (m : Matrix4) : Vector3 :=
  let x := vx v in let y := vy v in let z := vz v in
  let w := 1 / (n41 m * x + n42 m * y + n43 m * z + n44 m) in
  vec3 ((n11 m * x + n12 m * y + n13 m * z + n14 m) * w)
       ((n21 m * x + n22 m * y + n23 m * z + n24 m) * w)
       ((n31 m * x + n32 m * y + n33 m * z + n34 m) * w).

(** Modelled from the spec: [Vector3.sub], [add], [multiplyScalar] and
    [length]. *)
Definition sub (a b : Vector3) : Vector3 :=
  vec3 (vx a - vx b) (vy a - vy b) (vz a - vz b).

Definition add (a b : Vector3) : Vector3 :=
  vec3 (vx a + vx b) (vy a + vy b) (vz a + vz b).

Definition multiplyScalar (v : Vector3) (s : R) : Vector3 :=
  vec3 (vx v * s) (vy v * s) (vz v * s).

Definition length (v : Vector3) : R :=
  sqrt (vx v * vx v + vy v * vy v + vz v * vz v).

(** Modelled from the spec: [Vector3.normalize], that is
    [divideScalar(length() || 1)]; with [sub], [add], [multiplyScalar] and
    [length] above, the vector operations that turn the unprojected point
    into a ray and intersect it with the plane z = 0. *)
Definition normalize (v : Vector3) : Vector3 :=
  let l := length v in
  multiplyScalar v (1 / (if Req_dec_T l 0 then 1 else l)).

(** Modelled from the spec: [THREE.PerspectiveCamera], the perspective
    camera description (position, field of view, aspect, near/far).
    [matrixWorld] is the identity from construction until the renderer
    first updates it, and the translation to [position] afterwards (the
    camera is never rotated). *)
Record PerspectiveCamera : Type := mkCamera {
  fov : R;            (* degrees *)
  aspect : R;
  near : R;
  far : R;
  position : Vector3;
  matrixWorld : Matrix4
}.

(** Modelled from the spec: [PerspectiveCamera.updateProjectionMatrix],
    with zoom 1 and no view offset. *)
Definition projectionMatrix (camera : PerspectiveCamera) : Matrix4 :=
  let top := near camera * tan (PI / 180 * 0.5 * fov camera) / 1 in
  let height := 2 * top in
  let width := aspect camera * height in
  let left := -0.5 * width in
  makePerspective left (left + width) top (top - height)
                  (near camera) (far camera).

(** Modelled from the spec: [camera.projectionMatrixInverse]. *)
Definition projectionMatrixInverse (camera : PerspectiveCamera) : Matrix4 :=
  invert (projectionMatrix camera).

(** Modelled from the spec: [Vector3.unproject(camera)], through the
    inverse projection and then the world matrix of the camera. *)
Definition unproject (v : Vector3) (camera : PerspectiveCamera) : Vector3 :=
  applyMatrix4 (applyMatrix4 v (projectionMatrixInverse camera))
               (matrixWorld camera).

(** *** animate: the interaction point *)

Inductive InteractionMode : Set := mouse | camera.

Record Interaction : Type := mkInteraction {
  ix : R; iy : R; iz : R;
  isActive : bool;
  isAttracting : bool
}.

(** "Determine interaction point": the first part of [animate]. *)
Definition interactionPoint (interactionMode : InteractionMode)
    (cam : PerspectiveCamera) (hand : HandData)
    (mouseRef : R * R) (isMouseDown : bool) : Interaction :=
  let iz := 30 in     (* default interaction Z *)
  match interactionMode, detected hand with
  | camera, true =>
      let visibleHeight :=
        2 * tan ((fov cam * PI / 180) / 2) * vz (position cam) in
      let visibleWidth := visibleHeight * aspect cam in
      let ix := (Q2R (fst (handPosition hand)) - 0.5) * visibleWidth in
      let iy := - (Q2R (snd (handPosition hand)) - 0.5) * visibleHeight in
      mkInteraction ix iy iz true (isPinching hand)
  | mouse, _ =>
      let vec := vec3 (fst mouseRef) (snd mouseRef) 0.5 in
      let vec := unproject vec cam in
      let dir := normalize (sub vec (position cam)) in
      let distance := - vz (position cam) / vz dir in
      let pos := add (position cam) (multiplyScalar dir distance) in
      mkInteraction (vx pos) (vy pos) iz true isMouseDown
  | camera, false =>
      mkInteraction 0 0 iz false false
  end.

(** *** animate: one particle, one frame *)

(** Lerp speed. *)
Definition lerpFactor : R := 0.05.

(** The target [(tx, ty, tz)] a particle is moved toward: shape target,
    noise, then the interaction physics. *)
Definition effectiveTarget (it : Interaction) (time : R) (i : nat)
    (target pos : Vector3) : Rand Vector3 :=
  let tx := vx target in
  let ty := vy target in
  let tz := vz target in
  let tx := tx + sin (time * 2 + INR i) * 0.5 in
  let ty := ty + cos (time * 1.5 + INR i) * 0.5 in
  if isActive it then
    let dx := ix it - vx pos in
    let dy := iy it - vy pos in
    let dz := iz it - vz pos in
    let distSq := dx * dx + dy * dy + dz * dz in
    let dist := sqrt distSq in
    if isAttracting it then
      if Rlt_dec dist 40 then
        u1 <- Math_random ;;
        u2 <- Math_random ;;
        u3 <- Math_random ;;
        ret (vec3 (ix it + (u1 - 0.5) * 5)
                  (iy it + (u2 - 0.5) * 5)
                  (iz it + (u3 - 0.5) * 5))
      else ret (vec3 tx ty tz)
    else
      if Rlt_dec dist 25 then
        let force := (25 - dist) / 25 in
        ret (vec3 (tx - dx * force * 2)
                  (ty - dy * force * 2)
                  (tz - dz * force * 2))
      else ret (vec3 tx ty tz)
  else ret (vec3 tx ty tz).

(** "Update Position". *)
Definition updateParticle (it : Interaction) (time : R) (i : nat)
    (target pos : Vector3) : Rand Vector3 :=
  t <- effectiveTarget it time i target pos ;;
  ret (vec3 (vx pos + (vx t - vx pos) * lerpFactor)
            (vy pos + (vy t - vy pos) * lerpFactor)
            (vz pos + (vz t - vz pos) * lerpFactor)).

(** The particle loop of one frame, from index [i] on. *)
Fixpoint updateFrom (it : Interaction) (time : R) (i : nat)
    (target positions : list Vector3) : Rand (list Vector3) :=
  match target, positions with
  | t :: ts, p :: ps =>
      p' <- updateParticle it time i t p ;;
      ps' <- updateFrom it time (S i) ts ps ;;
      ret (p' :: ps')
  | _, _ => ret []
  end.

(** One call of [animate], as far as the position array goes. *)
Definition animate (interactionMode : InteractionMode)
    (cam : PerspectiveCamera) (hand : HandData)
    (mouseRef : R * R) (isMouseDown : bool) (time : R)
    (target positions : list Vector3) : Rand (list Vector3) :=
  let it := interactionPoint interactionMode cam hand mouseRef isMouseDown in
  updateFrom it time 0 target positions.

(** Particle [i] over [n] frames with a fixed target and interaction:
    frame [k] runs at time [time k] and draws from [draws k]. *)
Fixpoint afterFrames (it : Interaction) (time : nat -> R)
    (draws : nat -> RandomSource) (i : nat) (target : Vector3)
    (n : nat) (pos : Vector3) : Vector3 :=
  match n with
  | O => pos
  | S k =>
      fst (updateParticle it (time k) i target
             (afterFrames it time draws i target k pos) (draws k))
  end.

(** The spec's vocabulary: a point at some radius [r] in [lo, hi] from
    the origin, that is with [x^2 + y^2 + z^2 = r^2]; the stream of draws
    left after [k] calls of [Math.random()]. *)
Definition atRadius (lo hi : R) (p : Vector3) : Prop :=
  exists r, lo <= r <= hi /\
            vx p * vx p + vy p * vy p + vz p * vz p = r * r.

Definition drop (k : nat) (s : RandomSource) : RandomSource :=
  fun n => s (k + n)%nat.

(** The interaction point as a vector; the target after "Noise / Float":
    the shape target plus the drift of particle [i] at time [time]. *)
Definition point (it : Interaction) : Vector3 :=
  vec3 (ix it) (iy it) (iz it).

Definition drifted (time : R) (i : nat) (target : Vector3) : Vector3 :=
  vec3 (vx target + sin (time * 2 + INR i) * 0.5)
       (vy target + cos (time * 1.5 + INR i) * 0.5)
       (vz target).

(** Euclidean distance, as the loop computes it. *)
Definition distance (a b : Vector3) : R :=
  let dx := vx a - vx b in
  let dy := vy a - vy b in
  let dz := vz a - vz b in
  sqrt (dx * dx + dy * dy + dz * dz).

(** The camera of the scene,
    [new THREE.PerspectiveCamera(75, aspect, 0.1, 1000)] with
    [camera.position.z = 80], once the renderer has updated its world
    matrix. *)
Definition sceneCamera (aspect : R) : PerspectiveCamera :=
  mkCamera 75 aspect 0.1 1000 (vec3 0 0 80) (makeTranslation (vec3 0 0 80)).

(** A camera with a proper frustum: the field of view strictly between 0
    and 180 degrees, a positive aspect ratio, 0 < near < far. *)
Definition properCamera (cam : PerspectiveCamera) : Prop :=
  0 < fov cam < 180 /\ 0 < aspect cam /\ 0 < near cam < far cam.

(** The repulsion factor [force] computed for a particle at [pos]. *)
Definition force (it : Interaction) (pos : Vector3) : R :=
  (25 - distance (point it) pos) / 25.

(** What the interaction adds to the drifted shape target of a particle. *)
Definition targetOffset (it : Interaction) (time : R) (i : nat)
    (target pos : Vector3) (s : RandomSource) : Vector3 :=
  sub (fst (effectiveTarget it time i target pos s)) (drifted time i target).

(** Sample inputs: an interaction point on the axis at the default depth
    and a particle 5 away from it. *)
Definition pointOnAxis (attracting : bool) : Interaction :=
  mkInteraction 0 0 30 true attracting.

Definition nearby : Vector3 := vec3 3 4 30.

(** *** Mouse fallback, initial cloud *)

(** [handleMouseMove]: in mouse mode the pointer is normalised to
    [-1, 1] on both axes, y upward; in camera mode [mouseRef] is left
    alone. *)
Definition handleMouseMove (interactionMode : InteractionMode)
    (clientX clientY innerWidth innerHeight : R) (mouseRef : R * R)
  : R * R :=
  match interactionMode with
  | mouse => ((clientX / innerWidth) * 2 - 1,
              - (clientY / innerHeight) * 2 + 1)
  | camera => mouseRef
  end.

(** [handleMouseDown] and [handleMouseUp] on [isMouseDownRef]. *)
Definition handleMouseDown (interactionMode : InteractionMode)
    (isMouseDown : bool) : bool :=
  match interactionMode with mouse => true | camera => isMouseDown end.

Definition handleMouseUp (interactionMode : InteractionMode)
    (isMouseDown : bool) : bool :=
  match interactionMode with mouse => false | camera => isMouseDown end.

(** "Initial random positions": one particle of the start-up loop, its
    position, the hue given to [color.setHSL] and its size. *)
Definition initialParticle : Rand (Vector3 * R * R) :=
  u1 <- Math_random ;;
  u2 <- Math_random ;;
  u3 <- Math_random ;;
  u4 <- Math_random ;; let hue := 0.5 + u4 * 0.2 in
  u5 <- Math_random ;;
  ret (vec3 ((u1 - 0.5) * 100) ((u2 - 0.5) * 100) ((u3 - 0.5) * 100),
       hue, u5).

Fixpoint initialParticles (count : nat) : Rand (list (Vector3 * R * R)) :=
  match count with
  | O => ret []
  | S k =>
      p <- initialParticle ;;
      ps <- initialParticles k ;;
      ret (p :: ps)
  end.

(** A point all of whose coordinates lie within [b] of 0. *)
Definition inBox (b : R) (p : Vector3) : Prop :=
  Rabs (vx p) <= b /\ Rabs (vy p) <= b /\ Rabs (vz p) <= b.

End Nebula3D.

(** ** HandTracker: from landmarks to a hand sample *)

Module HandTracker.

Local Open Scope R_scope.

(** One landmark of MediaPipe, normalised image coordinates. *)
Record Landmark : Type := mkLandmark { lx : R; ly : R }.

(** [results.multiHandLandmarks[k]]: the landmarks of one hand by index
    (0 wrist, 4 thumb tip, 5 index base, 6/8 index, 10/12 middle, 14/16
    ring, 18/20 pinky). *)
Definition Hand : Type := nat -> Landmark.

(** The sample as the tracker computes it: [HandData] with the numbers
    [Math.hypot] yields. *)
Record Sample : Type := mkSample {
  fingersUp : nat;
  isPinching : bool;
  pinchDistance : R;
  handPosition : R * R;
  detected : bool
}.

Definition Math_hypot (a b : R) : R := sqrt (a * a + b * b).

Definition ltb (a b : R) : bool := if Rlt_dec a b then true else false.

(** The [fingers] array of [processResults]: thumb, index, middle, ring,
    pinky. *)
Definition fingers (landmarks : Hand) : list bool :=
  let thumbTip := landmarks 4%nat in
  let indexBase := landmarks 5%nat in
  let thumbDist :=
    Math_hypot (lx thumbTip - lx indexBase) (ly thumbTip - ly indexBase) in
  [ ltb 0.05 thumbDist;
    ltb (ly (landmarks 8%nat)) (ly (landmarks 6%nat));
    ltb (ly (landmarks 12%nat)) (ly (landmarks 10%nat));
    ltb (ly (landmarks 16%nat)) (ly (landmarks 14%nat));
    ltb (ly (landmarks 20%nat)) (ly (landmarks 18%nat)) ].

(** [processResults], up to the call of the callback: the sample it
    passes on.  [None] is a missing [multiHandLandmarks]. *)
Definition processResults (multiHandLandmarks : option (list Hand))
  : Sample :=
  match multiHandLandmarks with
  | Some (landmarks :: _) =>
      let pinchDist :=
        Math_hypot (lx (landmarks 8%nat) - lx (landmarks 4%nat))
                   (ly (landmarks 8%nat) - ly (landmarks 4%nat)) in
      mkSample (List.length (filter (fun f => f) (fingers landmarks)))
               (ltb pinchDist 0.05)
               pinchDist
               (1 - lx (landmarks 8%nat), ly (landmarks 8%nat))
               true
  | _ => mkSample 0 false 1 (0.5, 0.5) false
  end.

End HandTracker.

(** ** AudioManager: the drone and the shape-change sound *)

Module AudioManager.

Local Open Scope Q_scope.

(** The three parameters of the drone: for each the value it was set to
    or is heading for ([setTargetAtTime]). *)
Record Drone : Type := mkDrone {
  filterFrequency : Q;
  gain : Q;
  oscFrequency : Q
}.

(** [ctx], [droneOsc], [droneFilter] and [droneGain] are set together by
    [initialize]: [nodes] is [None] while they are null.  [whooshes]
    counts the noise bursts started. *)
Record Manager : Type := mkManager {
  nodes : option Drone;
  isInitialized : bool;
  whooshes : nat
}.

(** [new AudioManager()]. *)
Definition create : Manager := mkManager None false 0.

(** [initialize]: nothing when already initialised. *)
Definition initialize (m : Manager) : Manager :=
  if isInitialized m then m
  else mkManager (Some (mkDrone 100 0.1 55)) true (whooshes m).

(** [updateInteraction(intensity)]. *)
Definition updateInteraction (intensity : Q) (m : Manager) : Manager :=
  match nodes m with
  | None => m
  | Some _ =>
      let targetFreq := 100 + (intensity * 800) in
      let targetGain := 0.1 + (intensity * 0.2) in
      let targetPitch := 55 + (intensity * 5) in
      mkManager (Some (mkDrone targetFreq targetGain targetPitch))
                (isInitialized m) (whooshes m)
  end.

(** [playShapeChangeSound]: one more noise burst, if there is a context. *)
Definition playShapeChangeSound (m : Manager) : Manager :=
  match nodes m with
  | None => m
  | Some d => mkManager (Some d) (isInitialized m) (S (whooshes m))
  end.

(** The manager receiving the calls of the callback, in order. *)
Definition perform (m : Manager) (call : App.AudioCall) : Manager :=
  match call with
  | App.updateInteraction intensity => updateInteraction intensity m
  | App.playShapeChangeSound => playShapeChangeSound m
  end.

Definition performAll (m : Manager) (calls : list App.AudioCall) : Manager :=
  fold_left perform calls m.

End AudioManager.

(** * Properties of the hand-sample callback *)

Section GestureConsensus.

Import App.

Lemma shape_eqb_spec a b : reflect (a = b) (shape_eqb a b).
Proof. destruct a, b; simpl; constructor; congruence. Qed.

Lemma shape_eqb_refl a : shape_eqb a a = true.
Proof. now destruct a. Qed.

Lemma shape_eqb_neq a b : a <> b -> shape_eqb a b = false.
Proof. destruct (shape_eqb_spec a b); congruence. Qed.

(** The threshold test on an integer count: more than 12. *)
Lemma overThreshold_iff c : overThreshold c = true <-> 12 < c.
Proof.
  unfold overThreshold, Qltb, num, GESTURE_BUFFER_SIZE.
  rewrite negb_true_iff, <- not_true_iff_false, Qle_bool_iff.
  unfold Qle; simpl. lia.
Qed.

(** *** The counts object *)

Lemma ascendingFrom_weaken lo lo' cs :
  lo' <= lo -> ascendingFrom lo cs -> ascendingFrom lo' cs.
Proof. destruct cs as [|[k c] rest]; simpl; intuition lia. Qed.

Lemma bump_ascending n : forall cs lo,
  lo <= n -> ascendingFrom lo cs -> ascendingFrom lo (bump n cs).
Proof.
  induction cs as [|[k c] rest IH]; simpl; intros lo Hlo Hs.
  - auto.
  - destruct Hs as [Hk Hrest].
    destruct (n <? k) eqn:Hlt.
    + apply Nat.ltb_lt in Hlt. simpl. repeat split; auto; lia.
    + apply Nat.ltb_ge in Hlt.
      destruct (n =? k) eqn:Heq; simpl.
      * auto.
      * apply Nat.eqb_neq in Heq. split; auto. apply IH; auto; lia.
Qed.

Lemma getCount_below k : forall cs lo,
  ascendingFrom lo cs -> k < lo -> getCount k cs = 0.
Proof.
  induction cs as [|[k' c] rest IH]; simpl; intros lo Hs Hk; auto.
  destruct Hs as [Hlo Hrest].
  destruct (k =? k') eqn:E.
  - apply Nat.eqb_eq in E. lia.
  - apply (IH (S k')); auto; lia.
Qed.

Lemma getCount_bump k n : forall cs lo,
  ascendingFrom lo cs ->
  getCount k (bump n cs) = if k =? n then S (getCount k cs) else getCount k cs.
Proof.
  induction cs as [|[k' c] rest IH]; simpl; intros lo Hs.
  - destruct (k =? n); reflexivity.
  - destruct Hs as [Hlo Hrest].
    destruct (n <? k') eqn:Hlt.
    + apply Nat.ltb_lt in Hlt. simpl.
      destruct (k =? n) eqn:E; auto.
      apply Nat.eqb_eq in E; subst k.
      replace (n =? k') with false by (symmetry; apply Nat.eqb_neq; lia).
      now rewrite (getCount_below n rest (S k')) by (auto; lia).
    + apply Nat.ltb_ge in Hlt.
      destruct (n =? k') eqn:Heq; simpl.
      * apply Nat.eqb_eq in Heq; subst k'.
        destruct (k =? n); reflexivity.
      * apply Nat.eqb_neq in Heq.
        destruct (k =? k') eqn:E.
        -- apply Nat.eqb_eq in E; subst k'.
           now replace (k =? n) with false by (symmetry; apply Nat.eqb_neq; lia).
        -- apply (IH (S k')); auto.
Qed.

Lemma countAll_from buffer : forall cs,
  ascendingFrom 0 cs ->
  ascendingFrom 0 (fold_left (fun counts n => bump n counts) buffer cs) /\
  forall k, getCount k (fold_left (fun counts n => bump n counts) buffer cs)
            = count_occ Nat.eq_dec buffer k + getCount k cs.
Proof.
  induction buffer as [|n rest IH]; simpl; intros cs Hs.
  - auto.
  - destruct (IH (bump n cs)) as [Ha Hc].
    { apply bump_ascending; auto; lia. }
    split; auto. intros k. rewrite Hc, (getCount_bump k n cs 0 Hs).
    destruct (Nat.eq_dec n k) as [->|Hne].
    + rewrite Nat.eqb_refl. lia.
    + replace (k =? n) with false by (symmetry; apply Nat.eqb_neq; lia). lia.
Qed.

(** [counts[k]] is the number of occurrences of [k] in the buffer. *)
Lemma getCount_countAll buffer k :
  getCount k (countAll buffer) = count_occ Nat.eq_dec buffer k.
Proof.
  unfold countAll. destruct (countAll_from buffer [] I) as [_ H].
  rewrite H. simpl. lia.
Qed.

Lemma countAll_ascending buffer : ascendingFrom 0 (countAll buffer).
Proof. apply (countAll_from buffer [] I). Qed.

Lemma In_ascending k c : forall cs lo,
  ascendingFrom lo cs -> In (k, c) cs -> lo <= k.
Proof.
  induction cs as [|[a b] r IH]; simpl; intros lo Hs Hin.
  - contradiction.
  - destruct Hs as [Hlo Hr]. destruct Hin as [E|Hin].
    + inversion E; subst; auto.
    + specialize (IH _ Hr Hin). lia.
Qed.

Lemma In_getCount k c : forall cs lo,
  ascendingFrom lo cs -> In (k, c) cs -> getCount k cs = c.
Proof.
  induction cs as [|[k' c'] rest IH]; simpl; intros lo Hs Hin.
  - contradiction.
  - destruct Hs as [Hlo Hrest]. destruct Hin as [E|Hin].
    + inversion E; subst. now rewrite Nat.eqb_refl.
    + destruct (k =? k') eqn:E.
      * apply Nat.eqb_eq in E; subst k'.
        pose proof (In_ascending _ _ _ _ Hrest Hin). lia.
      * eauto.
Qed.

Lemma getCount_In k : forall cs,
  0 < getCount k cs -> In (k, getCount k cs) cs.
Proof.
  induction cs as [|[k' c'] rest IH]; simpl; intros H.
  - lia.
  - destruct (k =? k') eqn:E.
    + apply Nat.eqb_eq in E; subst. now left.
    + right; auto.
Qed.

(** A consensus entry carries the number of occurrences of its key, and
    that number exceeds 12. *)
Lemma findConsensus_sound buffer k c :
  findConsensus (countAll buffer) = Some (k, c) ->
  c = count_occ Nat.eq_dec buffer k /\ 12 < c.
Proof.
  intros H. apply find_some in H. destruct H as [Hin Hov].
  apply overThreshold_iff in Hov. simpl in Hov. split; auto.
  rewrite <- getCount_countAll.
  symmetry. eapply In_getCount; eauto using countAll_ascending.
Qed.

(** No consensus exactly when no value occurs more than 12 times. *)
Lemma findConsensus_none buffer :
  findConsensus (countAll buffer) = None <->
  forall k, count_occ Nat.eq_dec buffer k <= 12.
Proof.
  split.
  - intros H k.
    destruct (le_lt_dec (count_occ Nat.eq_dec buffer k) 12) as [|Hgt]; auto.
    exfalso. rewrite <- getCount_countAll in Hgt.
    assert (Hin : In (k, getCount k (countAll buffer)) (countAll buffer))
      by (apply getCount_In; lia).
    pose proof (find_none _ _ H _ Hin) as Hf. simpl in Hf.
    apply not_true_iff_false in Hf. apply Hf, overThreshold_iff. exact Hgt.
  - intros H. destruct (findConsensus (countAll buffer)) as [[k c]|] eqn:E; auto.
    apply findConsensus_sound in E. destruct E as [-> Hc].
    specialize (H k). lia.
Qed.

(** *** The callback step by step *)

(** The buffer never grows beyond its capacity. *)
Lemma addToBuffer_length buffer n :
  length buffer <= GESTURE_BUFFER_SIZE ->
  length (addToBuffer buffer n) <= GESTURE_BUFFER_SIZE.
Proof.
  unfold addToBuffer, push, shift, GESTURE_BUFFER_SIZE. intros H.
  destruct (15 <? length (buffer ++ [n])) eqn:E.
  - destruct buffer; simpl in *; rewrite ?length_app in *; simpl in *; lia.
  - apply Nat.ltb_ge in E. exact E.
Qed.

(** A stale closure (shape [SPHERE], captured when the tracker was set
    up) and a fresh one (the shape of the state) act alike. *)
Lemma onHandResults_closure c st data :
  closureOf st c ->
  onHandResults c st data = onHandResults (currentShape st) st data.
Proof.
  intros [-> | ->]; auto.
  unfold onHandResults. destruct (detected data); auto. cbv zeta.
  destruct (findConsensus _) as [[fingers cnt]|]; auto.
  destruct st as [shape hd buf am].
  unfold mapFingers, render, changeShape; simpl.
  destruct (fingers =? 2); [destruct shape, am; reflexivity|].
  destruct (fingers =? 3); [destruct shape, am; reflexivity|].
  destruct (fingers =? 4); [destruct shape, am; reflexivity|].
  destruct (fingers =? 5); [destruct shape, am; reflexivity|].
  simpl. now rewrite shape_eqb_refl.
Qed.

Lemma feed_closure pick :
  (forall st, closureOf st (pick st)) ->
  forall samples st, feed pick st samples = feed currentShape st samples.
Proof.
  intros Hp. induction samples as [|d rest IH]; simpl; intros st; auto.
  now rewrite (onHandResults_closure (pick st) st d (Hp st)), IH.
Qed.

(** The whole effect of a detected sample. *)
Lemma onHandResults_detected_eq c st data :
  closureOf st c ->
  detected data = true ->
  let window := addToBuffer (gestureBuffer st) (fingersUp data) in
  let quiet := (mkState (currentShape st) data window (audioManager st),
                audio st (updateInteraction (pinchIntensity data))) in
  onHandResults c st data =
  match findConsensus (countAll window) with
  | None => quiet
  | Some (fingers, _) =>
      match gestureShape fingers with
      | None => quiet
      | Some shape =>
          if shape_eqb shape (currentShape st) then quiet
          else (mkState shape data [] (audioManager st),
                audio st (updateInteraction (pinchIntensity data))
                ++ audio st playShapeChangeSound)
      end
  end.
Proof.
  intros Hc Hd. rewrite (onHandResults_closure _ _ _ Hc).
  unfold onHandResults. rewrite Hd.
  destruct st as [shape hd buf am]. simpl.
  destruct (findConsensus _) as [[fingers cnt]|]; simpl; auto.
  unfold mapFingers, render, changeShape, gestureShape, audio; simpl.
  destruct fingers as [|[|[|[|[|[|n]]]]]]; simpl;
    try (rewrite shape_eqb_refl; reflexivity);
    destruct shape; reflexivity.
Qed.

Lemma frequency_le_mode window k : frequency window k <= modeFrequency window.
Proof.
  unfold modeFrequency.
  destruct (in_dec Nat.eq_dec k window) as [Hin|Hnin].
  - assert (H : In (frequency window k) (map (frequency window) window))
      by (apply in_map; exact Hin).
    revert H. generalize (map (frequency window) window) as l.
    induction l as [|a l IH]; simpl; intros H; [contradiction|].
    destruct H as [->|H]; [lia|]. specialize (IH H). lia.
  - unfold frequency. apply (count_occ_not_In Nat.eq_dec) in Hnin.
    rewrite Hnin. lia.
Qed.

Lemma list_max_In : forall l, l <> [] -> In (list_max l) l.
Proof.
  induction l as [|b l IH]; intros H; [congruence|].
  destruct l as [|b' l'].
  - simpl. left. lia.
  - assert (IH' : In (list_max (b' :: l')) (b' :: l')) by (apply IH; congruence).
    change (list_max (b :: b' :: l')) with (Nat.max b (list_max (b' :: l'))).
    destruct (Nat.max_spec b (list_max (b' :: l'))) as [[_ E]|[_ E]]; rewrite E.
    + right; exact IH'.
    + left; reflexivity.
Qed.

Lemma mode_attained window :
  window <> [] -> exists k, frequency window k = modeFrequency window.
Proof.
  unfold modeFrequency. intros Hne.
  assert (H : map (frequency window) window <> [])
    by (destruct window; simpl; congruence).
  apply list_max_In, in_map_iff in H. destruct H as [k [Hk _]]. eauto.
Qed.

(** The consensus test in terms of the most frequent value: there is a
    consensus exactly when the mode occurs more than 12 times. *)
Lemma findConsensus_mode window :
  findConsensus (countAll window) = None <-> modeFrequency window <= 12.
Proof.
  rewrite findConsensus_none. split.
  - intros H. destruct window as [|n w].
    + unfold modeFrequency; simpl; lia.
    + destruct (mode_attained (n :: w)) as [k <-]; [congruence|]. apply H.
  - intros H k. pose proof (frequency_le_mode window k). unfold frequency in *. lia.
Qed.

(** *** Feeding thirteen 3s and two 2s *)

(** C1.  From an empty buffer and a current shape other than Saturn,
    thirteen detected samples with three fingers up followed by two with
    two fingers up commit exactly one change, to Saturn, on the thirteenth
    sample: the first twelve samples only fill the buffer, the thirteenth
    commits Saturn and leaves the buffer empty, and the two samples of 2
    commit nothing and leave the buffers [2] and [2; 2], in which no value
    occurs more than 12 times. *)
Theorem C1_saturn_committed_once pick st samples :
  (forall s, closureOf s (pick s)) ->
  gestureBuffer st = [] ->
  currentShape st <> SATURN ->
  Forall (fun d => detected d = true) samples ->
  map fingersUp samples = repeat 3 13 ++ repeat 2 2 ->
  let log := feed pick st samples in
  log = map (fun k => (None, repeat 3 k)) (seq 1 12)
        ++ [(Some SATURN, []); (None, [2]); (None, [2; 2])]
  /\ filter (fun e => match fst e with Some _ => true | None => false end) log
     = [(Some SATURN, [])]
  /\ Forall (fun e => modeFrequency (snd e) <= 12) log.
Proof.
  intros Hp Hb Hs Hdet Hmap log. subst log.
  rewrite (feed_closure pick Hp).
  destruct st as [shape hd buf am]; simpl in Hb, Hs; subst buf.
  do 15 (destruct samples as [|[? ? ? ? ?] samples]; [discriminate Hmap|]).
  destruct samples; [|discriminate Hmap].
  simpl in Hmap. injection Hmap as -> -> -> -> -> -> -> -> -> -> -> -> -> -> ->.
  repeat match goal with
         | H : Forall _ (_ :: _) |- _ => inversion_clear H
         end.
  repeat match goal with
         | H : detected _ = true |- _ => cbn [detected] in H; subst
         end.
  destruct shape; try congruence;
    (split; [vm_compute; reflexivity|];
     split; [vm_compute; reflexivity|];
     vm_compute; repeat constructor).
Qed.

Lemma C1_saturn_committed_once_witness :
  let log := feed (fun _ => SPHERE) startState
               (map sampleOf (repeat 3 13 ++ repeat 2 2)) in
  log = map (fun k => (None, repeat 3 k)) (seq 1 12)
        ++ [(Some SATURN, []); (None, [2]); (None, [2; 2])]
  /\ filter (fun e => match fst e with Some _ => true | None => false end) log
     = [(Some SATURN, [])]
  /\ Forall (fun e => modeFrequency (snd e) <= 12) log.
Proof.
  apply (C1_saturn_committed_once (fun _ => SPHERE) startState).
  - intros s. left. reflexivity.
  - reflexivity.
  - discriminate.
  - repeat constructor.
  - reflexivity.
Defined.

(** *** The consensus boundary *)

(** Without a consensus a detected sample only fills the buffer. *)
Lemma onHandResults_no_consensus c st data :
  detected data = true ->
  let window := addToBuffer (gestureBuffer st) (fingersUp data) in
  findConsensus (countAll window) = None ->
  onHandResults c st data =
    (mkState (currentShape st) data window (audioManager st),
     audio st (updateInteraction (pinchIntensity data))).
Proof.
  intros Hd window Hnone. unfold onHandResults. rewrite Hd. simpl.
  fold window. now rewrite Hnone.
Qed.

(** Samples fed into a buffer with room for them, no value reaching 13
    occurrences on the way: nothing is committed. *)
Lemma feed_below_threshold pick : forall samples st,
  Forall (fun d => detected d = true) samples ->
  length (gestureBuffer st) + length samples <= GESTURE_BUFFER_SIZE ->
  (forall k, frequency (gestureBuffer st ++ map fingersUp samples) k <= 12) ->
  Forall (fun e => fst e = None) (feed pick st samples).
Proof.
  induction samples as [|d rest IH]; intros st Hdet Hlen Hfreq; simpl.
  - constructor.
  - inversion_clear Hdet as [|? ? Hd Hrest].
    simpl in Hlen. unfold GESTURE_BUFFER_SIZE in Hlen.
    assert (Hw : addToBuffer (gestureBuffer st) (fingersUp d)
                 = gestureBuffer st ++ [fingersUp d]).
    { unfold addToBuffer, push, GESTURE_BUFFER_SIZE.
      replace (15 <? length (gestureBuffer st ++ [fingersUp d])) with false; auto.
      symmetry. apply Nat.ltb_ge. rewrite length_app. simpl. lia. }
    assert (Hnone : findConsensus
                      (countAll (addToBuffer (gestureBuffer st) (fingersUp d)))
                    = None).
    { apply findConsensus_none. intros k. rewrite Hw.
      specialize (Hfreq k). unfold frequency in Hfreq. simpl in Hfreq.
      rewrite !count_occ_app in *. simpl in *.
      destruct (Nat.eq_dec (fingersUp d) k); lia. }
    rewrite (onHandResults_no_consensus (pick st) st d Hd Hnone). simpl.
    constructor.
    + simpl. unfold committed. simpl. now rewrite shape_eqb_refl.
    + apply IH; auto; simpl; rewrite Hw.
      * rewrite length_app. simpl. unfold GESTURE_BUFFER_SIZE. lia.
      * intros k. rewrite <- app_assoc. simpl. apply Hfreq.
Qed.

(** C2.  When the buffer on which the consensus is computed (the buffer
    once the sample has been added and, if need be, the oldest entry
    dropped) has its most frequent value occurring exactly 12 times, no
    consensus is found and nothing is committed: shape kept, buffer kept,
    no shape-change sound.  A consensus is found exactly when the most
    frequent value occurs more than 12 times, 12 being 0.8 x 15; and up to
    15 samples fed into an empty buffer, no value more than 12 times among
    them, commit nothing. *)
Theorem C2_twelve_of_fifteen c st data :
  detected data = true ->
  let window := addToBuffer (gestureBuffer st) (fingersUp data) in
  modeFrequency window = 12 ->
  findConsensus (countAll window) = None
  /\ onHandResults c st data =
       (mkState (currentShape st) data window (audioManager st),
        audio st (updateInteraction (pinchIntensity data)))
  /\ committed st (fst (onHandResults c st data)) = None
  /\ (forall w, findConsensus (countAll w) <> None <-> 12 < modeFrequency w)
  /\ (num GESTURE_BUFFER_SIZE * 0.8 == 12)%Q
  /\ (forall pick st0 samples,
        gestureBuffer st0 = [] ->
        length samples <= GESTURE_BUFFER_SIZE ->
        Forall (fun d => detected d = true) samples ->
        modeFrequency (map fingersUp samples) <= 12 ->
        Forall (fun e => fst e = None) (feed pick st0 samples)).
Proof.
  intros Hd window Hm.
  assert (Hnone : findConsensus (countAll window) = None)
    by (apply findConsensus_mode; lia).
  pose proof (onHandResults_no_consensus c st data Hd Hnone) as Hres.
  fold window in Hres.
  split; [exact Hnone|]. split; [exact Hres|]. split; [|split; [|split]].
  - rewrite Hres. unfold committed; simpl. now rewrite shape_eqb_refl.
  - intros w. split.
    + intros H. destruct (le_lt_dec (modeFrequency w) 12) as [Hle|Hgt]; auto.
      apply findConsensus_mode in Hle. contradiction.
    + intros H E. apply findConsensus_mode in E. lia.
  - reflexivity.
  - intros pick st0 samples Hb Hlen Hdet Hmode.
    apply feed_below_threshold; auto.
    + rewrite Hb. simpl. exact Hlen.
    + intros k. rewrite Hb. simpl.
      pose proof (frequency_le_mode (map fingersUp samples) k). lia.
Qed.

Lemma C2_twelve_of_fifteen_witness :
  let st := mkState SPHERE lostHand (repeat 2 3 ++ repeat 3 11) true in
  let window := repeat 2 3 ++ repeat 3 12 in
  findConsensus (countAll window) = None
  /\ onHandResults SPHERE st (sampleOf 3) =
       (mkState SPHERE (sampleOf 3) window true,
        [updateInteraction (pinchIntensity (sampleOf 3))])
  /\ committed st (fst (onHandResults SPHERE st (sampleOf 3))) = None
  /\ (forall w, findConsensus (countAll w) <> None <-> 12 < modeFrequency w)
  /\ (num GESTURE_BUFFER_SIZE * 0.8 == 12)%Q
  /\ (forall pick st0 samples,
        gestureBuffer st0 = [] ->
        length samples <= GESTURE_BUFFER_SIZE ->
        Forall (fun d => detected d = true) samples ->
        modeFrequency (map fingersUp samples) <= 12 ->
        Forall (fun e => fst e = None) (feed pick st0 samples)).
Proof.
  apply (C2_twelve_of_fifteen SPHERE
           (mkState SPHERE lostHand (repeat 2 3 ++ repeat 3 11) true)
           (sampleOf 3)).
  - reflexivity.
  - vm_compute. reflexivity.
Defined.

(** *** The gesture table *)

(** C3.  When a consensus on [fingers] is reached, the outcome follows the
    table 2 -> Flower, 3 -> Saturn, 4 -> Heart, 5 -> Fireworks: a mapped
    shape other than the current one is committed (the state takes it, the
    buffer is emptied, the shape-change sound is requested, after the
    intensity update of the sample); a mapped shape equal to the current
    one, and any other count (0 and 1 among them), commits nothing: the
    shape is kept, the buffer is not cleared and the intensity update is
    the only request. *)
Theorem C3_consensus_mapping c st data fingers count :
  closureOf st c ->
  detected data = true ->
  let window := addToBuffer (gestureBuffer st) (fingersUp data) in
  findConsensus (countAll window) = Some (fingers, count) ->
  let st' := fst (onHandResults c st data) in
  let calls := snd (onHandResults c st data) in
  let kept :=
    committed st st' = None /\ currentShape st' = currentShape st
    /\ gestureBuffer st' = window
    /\ calls = audio st (updateInteraction (pinchIntensity data)) in
  let changed shape :=
    committed st st' = Some shape /\ currentShape st' = shape
    /\ gestureBuffer st' = []
    /\ calls = audio st (updateInteraction (pinchIntensity data))
               ++ audio st playShapeChangeSound in
  let mapped shape :=
    (currentShape st = shape -> kept) /\ (currentShape st <> shape -> changed shape) in
  (fingers = 2 -> mapped FLOWER) /\
  (fingers = 3 -> mapped SATURN) /\
  (fingers = 4 -> mapped HEART) /\
  (fingers = 5 -> mapped FIREWORKS) /\
  (fingers < 2 \/ 5 < fingers -> kept).
Proof.
  intros Hc Hd window Hf.
  pose proof (onHandResults_detected_eq c st data Hc Hd) as E.
  cbv zeta in E. fold window in E. rewrite Hf in E.
  assert (Hkept :
            gestureShape fingers = None \/
            gestureShape fingers = Some (currentShape st) ->
            committed st (fst (onHandResults c st data)) = None
            /\ currentShape (fst (onHandResults c st data)) = currentShape st
            /\ gestureBuffer (fst (onHandResults c st data)) = window
            /\ snd (onHandResults c st data)
               = audio st (updateInteraction (pinchIntensity data))).
  { intros [G | G]; rewrite G in E; [|rewrite shape_eqb_refl in E];
      rewrite E; unfold committed; simpl; rewrite shape_eqb_refl; auto. }
  assert (Hchanged : forall shape,
            gestureShape fingers = Some shape -> currentShape st <> shape ->
            committed st (fst (onHandResults c st data)) = Some shape
            /\ currentShape (fst (onHandResults c st data)) = shape
            /\ gestureBuffer (fst (onHandResults c st data)) = []
            /\ snd (onHandResults c st data)
               = audio st (updateInteraction (pinchIntensity data))
                 ++ audio st playShapeChangeSound).
  { intros shape G Hne. rewrite G in E.
    rewrite (shape_eqb_neq shape (currentShape st)) in E by congruence.
    rewrite E; unfold committed; simpl.
    rewrite shape_eqb_neq by congruence. auto. }
  cbv zeta.
  split; [|split; [|split; [|split]]];
    try (intros ->; split;
         [intros Hs; apply Hkept; right; rewrite Hs; reflexivity
         |intros Hne; apply Hchanged; [reflexivity | exact Hne]]).
  intros H. apply Hkept. left.
  destruct fingers as [|[|[|[|[|[|n]]]]]]; simpl; try reflexivity; lia.
Qed.

Lemma C3_consensus_mapping_witness :
  let st := mkState FLOWER lostHand (repeat 4 12) true in
  let data := sampleOf 4 in
  let st' := fst (onHandResults SPHERE st data) in
  let calls := snd (onHandResults SPHERE st data) in
  let kept :=
    committed st st' = None /\ currentShape st' = currentShape st
    /\ gestureBuffer st' = repeat 4 13
    /\ calls = audio st (updateInteraction (pinchIntensity data)) in
  let changed shape :=
    committed st st' = Some shape /\ currentShape st' = shape
    /\ gestureBuffer st' = []
    /\ calls = audio st (updateInteraction (pinchIntensity data))
               ++ audio st playShapeChangeSound in
  let mapped shape :=
    (currentShape st = shape -> kept) /\ (currentShape st <> shape -> changed shape) in
  (4 = 2 -> mapped FLOWER) /\
  (4 = 3 -> mapped SATURN) /\
  (4 = 4 -> mapped HEART) /\
  (4 = 5 -> mapped FIREWORKS) /\
  (4 < 2 \/ 5 < 4 -> kept).
Proof.
  apply (C3_consensus_mapping SPHERE
           (mkState FLOWER lostHand (repeat 4 12) true) (sampleOf 4) 4 13).
  - left. reflexivity.
  - reflexivity.
  - vm_compute. reflexivity.
Defined.

(** *** The audio intensity *)

Local Open Scope Q_scope.

Lemma Qle_bool_false a b : Qle_bool a b = false -> b < a.
Proof.
  intros H. apply Qnot_le_lt. intros Hle.
  apply Qle_bool_iff in Hle. congruence.
Qed.

Lemma Qltb_true a b : Qltb a b = true -> a < b.
Proof. unfold Qltb. rewrite negb_true_iff. apply Qle_bool_false. Qed.

Lemma Qltb_false a b : Qltb a b = false -> b <= a.
Proof. unfold Qltb. rewrite negb_false_iff. apply Qle_bool_iff. Qed.

(** [Math.min(Math.max(x, lo), hi)] is the clamp of [x] to [lo, hi]. *)
Lemma min_max_clamp x lo hi :
  lo <= hi -> Math_min (Math_max x lo) hi == clamp x lo hi.
Proof.
  intros Hlh. unfold Math_min, Math_max, clamp.
  destruct (Qle_bool x lo) eqn:E1.
  - apply Qle_bool_iff in E1.
    replace (Qle_bool lo hi) with true by (symmetry; now apply Qle_bool_iff).
    destruct (Qltb x lo) eqn:E2; [reflexivity|].
    apply Qltb_false in E2.
    destruct (Qltb hi x) eqn:E3.
    + apply Qltb_true in E3. lra.
    + lra.
  - apply Qle_bool_false in E1.
    replace (Qltb x lo) with false
      by (symmetry; unfold Qltb; rewrite negb_false_iff; apply Qle_bool_iff; lra).
    destruct (Qle_bool x hi) eqn:E2.
    + apply Qle_bool_iff in E2.
      replace (Qltb hi x) with false
        by (symmetry; unfold Qltb; rewrite negb_false_iff; now apply Qle_bool_iff).
      reflexivity.
    + apply Qle_bool_false in E2.
      replace (Qltb hi x) with true
        by (symmetry; unfold Qltb; rewrite negb_true_iff;
            apply not_true_iff_false; rewrite Qle_bool_iff; lra).
      reflexivity.
Qed.

Lemma clamp_bounds x lo hi : lo <= hi -> lo <= clamp x lo hi <= hi.
Proof.
  intros Hlh. unfold clamp.
  destruct (Qltb x lo) eqn:E1; [lra|]. apply Qltb_false in E1.
  destruct (Qltb hi x) eqn:E2; [lra|]. apply Qltb_false in E2. lra.
Qed.

Lemma pinchIntensity_open data :
  isPinching data = false ->
  pinchIntensity data == 1 - (clamp (pinchDistance data) 0.05 0.3 - 0.05) / 0.25.
Proof.
  intros H. unfold pinchIntensity. rewrite H. cbv zeta.
  rewrite min_max_clamp by lra. reflexivity.
Qed.

Lemma pinchIntensity_range data : 0 <= pinchIntensity data <= 1.
Proof.
  destruct (isPinching data) eqn:E.
  - unfold pinchIntensity. rewrite E. lra.
  - rewrite (pinchIntensity_open data E).
    pose proof (clamp_bounds (pinchDistance data) 0.05 0.3) as H.
    assert (Hd : (clamp (pinchDistance data) 0.05 0.3 - 0.05) / 0.25
                 == (clamp (pinchDistance data) 0.05 0.3 - 0.05) * 4) by field.
    rewrite Hd. lra.
Qed.

(** The intensity requests of one hand update. *)
Lemma updateInteraction_calls c st data q :
  In (updateInteraction q) (snd (onHandResults c st data)) ->
  q = if detected data then pinchIntensity data else 0.
Proof.
  unfold onHandResults, audio. destruct (detected data); simpl.
  - destruct (findConsensus _) as [[fingers cnt]|]; simpl.
    + destruct (negb (shape_eqb (mapFingers c fingers) c)); simpl.
      * unfold changeShape, audio; simpl.
        destruct (negb (shape_eqb (currentShape st) (mapFingers c fingers)));
          simpl; destruct (audioManager st); simpl; intuition congruence.
      * destruct (audioManager st); simpl; intuition congruence.
    + destruct (audioManager st); simpl; intuition congruence.
  - destruct (audioManager st); simpl; intuition congruence.
Qed.

Lemma updateInteraction_sent c st data :
  audioManager st = true ->
  In (updateInteraction (if detected data then pinchIntensity data else 0))
     (snd (onHandResults c st data)).
Proof.
  intros Ha. unfold onHandResults, audio. destruct (detected data); simpl.
  - destruct (findConsensus _) as [[fingers cnt]|]; simpl.
    + destruct (negb (shape_eqb (mapFingers c fingers) c)); simpl.
      * unfold changeShape, audio; simpl.
        destruct (negb (shape_eqb (currentShape st) (mapFingers c fingers)));
          simpl; rewrite Ha; simpl; auto.
      * rewrite Ha. simpl. auto.
    + rewrite Ha. simpl. auto.
  - rewrite Ha. simpl. auto.
Qed.

(** C9.  Every intensity a hand update sends to the audio manager lies in
    [0,1]: it is 0 when no hand is detected, 1 when the hand is pinching,
    and otherwise 1 - (clamp(pinchDistance, 0.05, 0.3) - 0.05) / 0.25; this
    holds for every pinch distance, non-negative or not.  Once the audio
    manager is set, every hand update sends that intensity. *)
Theorem C9_intensity_in_unit_interval c st data :
  (forall q,
     In (updateInteraction q) (snd (onHandResults c st data)) ->
     0 <= q <= 1
     /\ (detected data = false -> q = 0)
     /\ (detected data = true -> isPinching data = true -> q = 1)
     /\ (detected data = true -> isPinching data = false ->
         q == 1 - (clamp (pinchDistance data) 0.05 0.3 - 0.05) / 0.25))
  /\ (audioManager st = true ->
      exists q, In (updateInteraction q) (snd (onHandResults c st data))).
Proof.
  split.
  - intros q H. apply updateInteraction_calls in H. subst q.
    split; [|split; [|split]].
    + destruct (detected data); [apply pinchIntensity_range | cbv iota; lra].
    + intros ->. reflexivity.
    + intros -> Hp. unfold pinchIntensity. now rewrite Hp.
    + intros -> Hp. now apply pinchIntensity_open.
  - intros Ha. eexists. now apply updateInteraction_sent.
Qed.

Lemma C9_intensity_in_unit_interval_witness :
  let data := mkHandData 2 false 0.2 (0.5, 0.5) true in
  let q := pinchIntensity data in
  In (updateInteraction q) (snd (onHandResults SPHERE startState data))
  /\ 0 <= q <= 1
  /\ (detected data = false -> q = 0)
  /\ (detected data = true -> isPinching data = true -> q = 1)
  /\ (detected data = true -> isPinching data = false ->
      q == 1 - (clamp (pinchDistance data) 0.05 0.3 - 0.05) / 0.25).
Proof.
  assert (Hin : In (updateInteraction
                      (pinchIntensity (mkHandData 2 false 0.2 (0.5, 0.5) true)))
                   (snd (onHandResults SPHERE startState
                           (mkHandData 2 false 0.2 (0.5, 0.5) true))))
    by (vm_compute; left; reflexivity).
  split; [exact Hin|].
  exact (proj1 (C9_intensity_in_unit_interval SPHERE startState
                  (mkHandData 2 false 0.2 (0.5, 0.5) true)) _ Hin).
Defined.

Local Close Scope Q_scope.

(** *** A lost hand *)

(** C10.  A sample with [detected = false] leaves the gesture buffer and
    the current shape as they are and commits nothing; the state only
    records the sample, and the only request to the audio manager is an
    intensity update of 0.  The same holds over any run of such samples:
    the buffer is frozen, not decayed. *)
Theorem C10_lost_hand_freezes_window c st data :
  detected data = false ->
  onHandResults c st data = (setHandData data st, audio st (updateInteraction 0%Q))
  /\ gestureBuffer (fst (onHandResults c st data)) = gestureBuffer st
  /\ currentShape (fst (onHandResults c st data)) = currentShape st
  /\ committed st (fst (onHandResults c st data)) = None
  /\ (audioManager st = true ->
      snd (onHandResults c st data) = [updateInteraction 0%Q])
  /\ (forall pick samples,
        Forall (fun d => detected d = false) samples ->
        feed pick st samples = map (fun _ => (None, gestureBuffer st)) samples).
Proof.
  intros Hd.
  assert (Hstep : forall c' s d, detected d = false ->
            onHandResults c' s d = (setHandData d s, audio s (updateInteraction 0%Q))).
  { intros c' s d H. unfold onHandResults. now rewrite H. }
  rewrite (Hstep c st data Hd). simpl.
  repeat split.
  - unfold committed. now rewrite shape_eqb_refl.
  - intros Ha. unfold audio. now rewrite Ha.
  - intros pick samples. revert st.
    induction samples as [|d rest IH]; intros s Hall; simpl; auto.
    inversion_clear Hall as [|? ? Hd' Hrest].
    rewrite (Hstep (pick s) s d Hd'). simpl.
    rewrite (IH (setHandData d s) Hrest). simpl.
    unfold committed. now rewrite shape_eqb_refl.
Qed.

Lemma C10_lost_hand_freezes_window_witness :
  let st := mkState SATURN (sampleOf 3) (repeat 3 7) true in
  onHandResults SPHERE st lostHand
    = (setHandData lostHand st, audio st (updateInteraction 0%Q))
  /\ gestureBuffer (fst (onHandResults SPHERE st lostHand)) = gestureBuffer st
  /\ currentShape (fst (onHandResults SPHERE st lostHand)) = currentShape st
  /\ committed st (fst (onHandResults SPHERE st lostHand)) = None
  /\ (audioManager st = true ->
      snd (onHandResults SPHERE st lostHand) = [updateInteraction 0%Q])
  /\ (forall pick samples,
        Forall (fun d => detected d = false) samples ->
        feed pick st samples = map (fun _ => (None, gestureBuffer st)) samples).
Proof.
  apply (C10_lost_hand_freezes_window SPHERE
           (mkState SATURN (sampleOf 3) (repeat 3 7) true) lostHand).
  reflexivity.
Defined.

End GestureConsensus.

(** * Properties of the particle engine *)

Section ShapeField.

Import Nebula3D.
Local Open Scope R_scope.

Lemma vec3_eq a1 a2 a3 b1 b2 b3 :
  a1 = b1 -> a2 = b2 -> a3 = b3 -> vec3 a1 a2 a3 = vec3 b1 b2 b3.
Proof. intros; subst; reflexivity. Qed.

Lemma drop_unitDraws k s : unitDraws s -> unitDraws (drop k s).
Proof. intros H n. apply H. Qed.

(** Spherical coordinates land at distance [r] from the origin. *)
Lemma spherical_radius r phi theta :
  let x := r * sin phi * cos theta in
  let y := r * sin phi * sin theta in
  let z := r * cos phi in
  x * x + y * y + z * z = r * r.
Proof.
  intros x y z. subst x y z.
  pose proof (sin2_cos2 phi) as Hp. pose proof (sin2_cos2 theta) as Ht.
  unfold Rsqr in Hp, Ht.
  replace (r * sin phi * cos theta * (r * sin phi * cos theta)
           + r * sin phi * sin theta * (r * sin phi * sin theta)
           + r * cos phi * (r * cos phi))
    with (r * r * (sin phi * sin phi * (sin theta * sin theta + cos theta * cos theta)
                   + cos phi * cos phi)) by ring.
  rewrite Ht, Rmult_1_r, Hp. ring.
Qed.

(** One Sphere point: three draws, radius [25 + 2 u] with [u] the first. *)
Lemma shapePoint_SPHERE s :
  unitDraws s ->
  atRadius 25 27 (fst (shapePoint SPHERE s)) /\
  snd (shapePoint SPHERE s) = drop 3 s.
Proof.
  intros Hs. split; [|reflexivity].
  exists (25 + s 0%nat * 2). split.
  - pose proof (Hs 0%nat). lra.
  - apply spherical_radius.
Qed.

(** One Fireworks point: three draws, radius [50 u] with [u] the first. *)
Lemma shapePoint_FIREWORKS s :
  unitDraws s ->
  atRadius 0 50 (fst (shapePoint FIREWORKS s)) /\
  snd (shapePoint FIREWORKS s) = drop 3 s.
Proof.
  intros Hs. split; [|reflexivity].
  exists (s 0%nat * 50). split.
  - pose proof (Hs 0%nat). lra.
  - apply spherical_radius.
Qed.

(** The loop keeps what holds of every single point. *)
Lemma fillTargets_Forall type (P : Vector3 -> Prop) k :
  (forall s, unitDraws s ->
             P (fst (shapePoint type s)) /\
             snd (shapePoint type s) = drop k s) ->
  forall count s, unitDraws s ->
    Forall P (fst (fillTargets type count s)) /\
    List.length (fst (fillTargets type count s)) = count.
Proof.
  intros Hpoint. induction count as [|n IH]; intros s Hs.
  - simpl. split; [constructor | reflexivity].
  - destruct (Hpoint s Hs) as [HP Hnext].
    specialize (IH (drop k s) (drop_unitDraws k s Hs)).
    simpl. unfold bind.
    destruct (shapePoint type s) as [p s'] eqn:E. simpl in HP, Hnext. subst s'.
    destruct (fillTargets type n (drop k s)) as [ps s''] eqn:E'.
    simpl in *. destruct IH as [IH1 IH2]. split; [constructor; auto | congruence].
Qed.

(** C7.  Whatever the draws of the random source (each in [0,1)), every
    one of the 15000 target points generated for Sphere lies at some
    radius r in [25,27] from the origin, x^2 + y^2 + z^2 = r^2, and every
    one generated for Fireworks at some radius r in [0,50]. *)
Theorem C7_sphere_fireworks_radius s :
  unitDraws s ->
  (Forall (atRadius 25 27) (fst (calculateTargetPositions SPHERE s)) /\
   List.length (fst (calculateTargetPositions SPHERE s)) = PARTICLE_COUNT) /\
  (Forall (atRadius 0 50) (fst (calculateTargetPositions FIREWORKS s)) /\
   List.length (fst (calculateTargetPositions FIREWORKS s)) = PARTICLE_COUNT).
Proof.
  intros Hs. unfold calculateTargetPositions. split.
  - apply (fillTargets_Forall SPHERE _ 3 shapePoint_SPHERE _ s Hs).
  - apply (fillTargets_Forall FIREWORKS _ 3 shapePoint_FIREWORKS _ s Hs).
Qed.

Lemma C7_sphere_fireworks_radius_witness :
  let s : RandomSource := fun n => / 2 in
  (Forall (atRadius 25 27) (fst (calculateTargetPositions SPHERE s)) /\
   List.length (fst (calculateTargetPositions SPHERE s)) = PARTICLE_COUNT) /\
  (Forall (atRadius 0 50) (fst (calculateTargetPositions FIREWORKS s)) /\
   List.length (fst (calculateTargetPositions FIREWORKS s)) = PARTICLE_COUNT).
Proof.
  apply (C7_sphere_fireworks_radius (fun n => / 2)).
  intros n. lra.
Defined.

End ShapeField.

Section Integrator.

Import Nebula3D.
Local Open Scope R_scope.

(** The distance the loop computes is [distance (point it) pos]. *)
Lemma effectiveTarget_cases it time i target pos s :
  effectiveTarget it time i target pos s =
  if isActive it then
    if isAttracting it then
      if Rlt_dec (distance (point it) pos) 40 then
        (vec3 (ix it + (s 0%nat - 0.5) * 5)
              (iy it + (s 1%nat - 0.5) * 5)
              (iz it + (s 2%nat - 0.5) * 5), drop 3 s)
      else (drifted time i target, s)
    else
      if Rlt_dec (distance (point it) pos) 25 then
        let force := (25 - distance (point it) pos) / 25 in
        (vec3 (vx (drifted time i target) - (ix it - vx pos) * force * 2)
              (vy (drifted time i target) - (iy it - vy pos) * force * 2)
              (vz (drifted time i target) - (iz it - vz pos) * force * 2), s)
      else (drifted time i target, s)
  else (drifted time i target, s).
Proof.
  unfold effectiveTarget, distance, point, drifted. simpl.
  destruct (isActive it); [|reflexivity].
  destruct (isAttracting it).
  - destruct (Rlt_dec _ 40); reflexivity.
  - destruct (Rlt_dec _ 25); reflexivity.
Qed.

Lemma updateParticle_eq it time i target pos s :
  updateParticle it time i target pos s =
  let t := fst (effectiveTarget it time i target pos s) in
  (vec3 (vx pos + (vx t - vx pos) * lerpFactor)
        (vy pos + (vy t - vy pos) * lerpFactor)
        (vz pos + (vz t - vz pos) * lerpFactor),
   snd (effectiveTarget it time i target pos s)).
Proof.
  unfold updateParticle, bind, ret.
  destruct (effectiveTarget it time i target pos s); reflexivity.
Qed.

(** A particle consumes no draw or three, and leaves the stream a stream
    of draws in [0,1). *)
Lemma updateParticle_draws it time i target pos s :
  unitDraws s -> unitDraws (snd (updateParticle it time i target pos s)).
Proof.
  intros Hs. rewrite updateParticle_eq. simpl.
  rewrite effectiveTarget_cases.
  destruct (isActive it); auto.
  destruct (isAttracting it).
  - destruct (Rlt_dec _ 40); simpl; auto. now apply drop_unitDraws.
  - destruct (Rlt_dec _ 25); simpl; auto.
Qed.

(** Each entry of the position array after a frame is [updateParticle] of
    that particle, on some stream of draws in [0,1). *)
Lemma updateFrom_nth it time : forall target positions i0 s k t p,
  unitDraws s ->
  nth_error target k = Some t ->
  nth_error positions k = Some p ->
  exists s', unitDraws s' /\
    nth_error (fst (updateFrom it time i0 target positions s)) k
    = Some (fst (updateParticle it time (i0 + k) t p s')).
Proof.
  induction target as [|t0 ts IH]; intros positions i0 s k t p Hs Ht Hp.
  - destruct k; discriminate.
  - destruct positions as [|p0 ps]; [destruct k; discriminate|].
    simpl. unfold bind at 1.
    destruct (updateParticle it time i0 t0 p0 s) as [p' s1] eqn:E1.
    unfold bind at 1.
    destruct (updateFrom it time (S i0) ts ps s1) as [ps' s2] eqn:E2.
    simpl. destruct k as [|k].
    + simpl in Ht, Hp. inversion Ht; inversion Hp; subst.
      exists s. split; auto. rewrite Nat.add_0_r, E1. reflexivity.
    + simpl in Ht, Hp.
      assert (Hs1 : unitDraws s1).
      { pose proof (updateParticle_draws it time i0 t0 p0 s Hs) as H.
        now rewrite E1 in H. }
      destruct (IH ps (S i0) s1 k t p Hs1 Ht Hp) as [s' [Hs' Hn]].
      exists s'. split; auto. rewrite E2 in Hn. simpl in Hn. simpl.
      rewrite Hn. now rewrite Nat.add_succ_r.
Qed.

(** *** No interaction *)

Lemma pow95_pos n : 0 < 0.95 ^ n.
Proof. apply pow_lt. lra. Qed.

Lemma pow95_le1 n : 0.95 ^ n <= 1.
Proof. induction n; simpl; [lra|]. pose proof (pow95_pos n). lra. Qed.

Lemma Rabs_bound x b : - b <= x <= b -> Rabs x <= b.
Proof. intros H. unfold Rabs. destruct (Rcase_abs x); lra. Qed.

Lemma Rabs_bound_inv x b : Rabs x <= b -> - b <= x <= b.
Proof. unfold Rabs. destruct (Rcase_abs x); lra. Qed.

(** One inactive frame: the exponential filter toward the drifted
    target. *)
Lemma updateParticle_inactive it time i target pos s :
  isActive it = false ->
  updateParticle it time i target pos s =
  (vec3 (vx pos + (vx target + sin (time * 2 + INR i) * 0.5 - vx pos) * 0.05)
        (vy pos + (vy target + cos (time * 1.5 + INR i) * 0.5 - vy pos) * 0.05)
        (vz pos + (vz target - vz pos) * 0.05), s).
Proof.
  intros H. rewrite updateParticle_eq, effectiveTarget_cases, H. reflexivity.
Qed.

Lemma afterFrames_inactive it time draws i target n :
  isActive it = false ->
  let p := afterFrames it time draws i target n target in
  Rabs (vx p - vx target) <= 0.5 * (1 - 0.95 ^ n) /\
  Rabs (vy p - vy target) <= 0.5 * (1 - 0.95 ^ n) /\
  vz p = vz target.
Proof.
  intros H. induction n as [|n IH].
  - simpl. rewrite !Rminus_diag, Rabs_R0. repeat split; lra.
  - cbv zeta in IH. destruct IH as [Hx [Hy Hz]].
    apply Rabs_bound_inv in Hx. apply Rabs_bound_inv in Hy.
    simpl afterFrames. rewrite updateParticle_inactive by exact H.
    cbv zeta. simpl fst. simpl vx. simpl vy. simpl vz.
    set (p := afterFrames it time draws i target n target) in *.
    pose proof (SIN_bound (time n * 2 + INR i)).
    pose proof (COS_bound (time n * 1.5 + INR i)).
    simpl pow. set (q := 0.95 ^ n) in *.
    repeat split; try (apply Rabs_bound); lra.
Qed.

(** C6.  With the interaction inactive and the position equal to the
    target, one frame moves the position by 0.05 times the drift only:
    (0.05 * 0.5 sin(2t + i), 0.05 * 0.5 cos(1.5t + i), 0), the drift being
    within 0.5 on each axis and the move within 0.025; and after any
    number of frames with the same target and no interaction, at any frame
    times, the position stays within 0.5 of the target on every axis. *)
Theorem C6_rest_stays_near_target it time draws i target :
  isActive it = false ->
  (forall t s,
     let p := fst (updateParticle it t i target target s) in
     vx p - vx target = 0.05 * (sin (t * 2 + INR i) * 0.5) /\
     vy p - vy target = 0.05 * (cos (t * 1.5 + INR i) * 0.5) /\
     vz p - vz target = 0 /\
     Rabs (sin (t * 2 + INR i) * 0.5) <= 0.5 /\
     Rabs (cos (t * 1.5 + INR i) * 0.5) <= 0.5 /\
     Rabs (vx p - vx target) <= 0.025 /\ Rabs (vy p - vy target) <= 0.025) /\
  (forall n,
     let p := afterFrames it time draws i target n target in
     Rabs (vx p - vx target) < 0.5 /\
     Rabs (vy p - vy target) < 0.5 /\
     Rabs (vz p - vz target) < 0.5).
Proof.
  intros H. split.
  - intros t s. rewrite updateParticle_inactive by exact H.
    cbv zeta. simpl fst. simpl vx. simpl vy. simpl vz.
    pose proof (SIN_bound (t * 2 + INR i)).
    pose proof (COS_bound (t * 1.5 + INR i)).
    repeat split; try (apply Rabs_bound); lra.
  - intros n.
    destruct (afterFrames_inactive it time draws i target n H) as [Hx [Hy Hz]].
    cbv zeta. pose proof (pow95_pos n).
    rewrite Hz, Rminus_diag, Rabs_R0. repeat split; lra.
Qed.

Lemma C6_rest_stays_near_target_witness :
  let it := mkInteraction 0 0 30 false false in
  let target := vec3 25 0 0 in
  (forall t s,
     let p := fst (updateParticle it t 7 target target s) in
     vx p - vx target = 0.05 * (sin (t * 2 + INR 7) * 0.5) /\
     vy p - vy target = 0.05 * (cos (t * 1.5 + INR 7) * 0.5) /\
     vz p - vz target = 0 /\
     Rabs (sin (t * 2 + INR 7) * 0.5) <= 0.5 /\
     Rabs (cos (t * 1.5 + INR 7) * 0.5) <= 0.5 /\
     Rabs (vx p - vx target) <= 0.025 /\ Rabs (vy p - vy target) <= 0.025) /\
  (forall n,
     let p := afterFrames it (fun k => INR k / 60) (fun _ _ => 0) 7 target n target in
     Rabs (vx p - vx target) < 0.5 /\
     Rabs (vy p - vy target) < 0.5 /\
     Rabs (vz p - vz target) < 0.5).
Proof.
  apply (C6_rest_stays_near_target (mkInteraction 0 0 30 false false)
           (fun k => INR k / 60) (fun _ _ => 0) 7 (vec3 25 0 0)).
  reflexivity.
Defined.

(** *** Attraction *)

Lemma sumsq_nonneg (x y z : R) : 0 <= x * x + y * y + z * z.
Proof. nra. Qed.

Lemma sqrt_sumsq (x y z : R) :
  sqrt (x * x + y * y + z * z) * sqrt (x * x + y * y + z * z)
  = x * x + y * y + z * z.
Proof. apply sqrt_sqrt, sumsq_nonneg. Qed.

Lemma sqrt_sumsq_lt (x y z d : R) :
  0 < d -> x * x + y * y + z * z < d * d ->
  sqrt (x * x + y * y + z * z) < d.
Proof.
  intros Hd H. pose proof (sqrt_sumsq x y z) as Hsq.
  pose proof (sqrt_pos (x * x + y * y + z * z)) as Hnn.
  set (r := sqrt (x * x + y * y + z * z)) in *. clearbody r. nra.
Qed.

Lemma axis_le_sqrt (x y z : R) :
  Rabs x <= sqrt (x * x + y * y + z * z) /\
  Rabs y <= sqrt (x * x + y * y + z * z) /\
  Rabs z <= sqrt (x * x + y * y + z * z).
Proof.
  pose proof (sqrt_sumsq x y z) as Hsq.
  pose proof (sqrt_pos (x * x + y * y + z * z)) as Hnn.
  set (r := sqrt (x * x + y * y + z * z)) in *. clearbody r.
  repeat split; apply Rabs_bound; nra.
Qed.

Lemma distance_sq a b :
  distance a b * distance a b
  = (vx a - vx b) * (vx a - vx b) + (vy a - vy b) * (vy a - vy b)
    + (vz a - vz b) * (vz a - vz b).
Proof. unfold distance. cbv zeta. apply sqrt_sumsq. Qed.

Lemma distance_nonneg a b : 0 <= distance a b.
Proof. unfold distance. cbv zeta. apply sqrt_pos. Qed.

Lemma distance_lt a b d :
  0 < d ->
  (vx a - vx b) * (vx a - vx b) + (vy a - vy b) * (vy a - vy b)
  + (vz a - vz b) * (vz a - vz b) < d * d ->
  distance a b < d.
Proof. intros Hd H. unfold distance. cbv zeta. now apply sqrt_sumsq_lt. Qed.

(** The filter step is a convex combination: it cannot carry a point
    from inside the ball of radius 40 to outside it. *)
Lemma convex_step (e J : R) :
  -2.5 <= J <= 2.5 ->
  (0.95 * e - 0.05 * J) * (0.95 * e - 0.05 * J)
  <= 0.95 * (e * e) + 0.05 * 6.25.
Proof.
  intros HJ.
  pose proof (Rle_0_sqr (e + J)) as H1. unfold Rsqr in H1.
  assert (H2 : 0 <= (2.5 - J) * (2.5 + J)) by (apply Rmult_le_pos; lra).
  lra.
Qed.

Lemma jitter_step (a b c u v w d : R) :
  0 <= u < 1 -> 0 <= v < 1 -> 0 <= w < 1 ->
  0 <= d -> d < 40 -> d * d = a * a + b * b + c * c ->
  (0.95 * a - 0.05 * ((u - 0.5) * 5)) * (0.95 * a - 0.05 * ((u - 0.5) * 5))
  + (0.95 * b - 0.05 * ((v - 0.5) * 5)) * (0.95 * b - 0.05 * ((v - 0.5) * 5))
  + (0.95 * c - 0.05 * ((w - 0.5) * 5)) * (0.95 * c - 0.05 * ((w - 0.5) * 5))
  < 40 * 40.
Proof.
  intros Hu Hv Hw Hd0 Hd Hsq.
  pose proof (convex_step a ((u - 0.5) * 5) ltac:(lra)).
  pose proof (convex_step b ((v - 0.5) * 5) ltac:(lra)).
  pose proof (convex_step c ((w - 0.5) * 5) ltac:(lra)).
  assert (0 < (40 - d) * (40 + d)) by (apply Rmult_lt_0_compat; lra).
  lra.
Qed.

(** An attracted frame: the filter toward the jittered interaction
    point; the target and the time play no part. *)
Lemma updateParticle_attracted it time i target pos s :
  isActive it = true -> isAttracting it = true ->
  distance (point it) pos < 40 ->
  fst (updateParticle it time i target pos s) =
  vec3 (vx pos + (ix it + (s 0%nat - 0.5) * 5 - vx pos) * 0.05)
       (vy pos + (iy it + (s 1%nat - 0.5) * 5 - vy pos) * 0.05)
       (vz pos + (iz it + (s 2%nat - 0.5) * 5 - vz pos) * 0.05).
Proof.
  intros Ha Hb Hd. rewrite updateParticle_eq, effectiveTarget_cases, Ha, Hb.
  destruct (Rlt_dec _ 40); [reflexivity | contradiction].
Qed.

(** An attracted particle stays within reach of the interaction point. *)
Lemma attracted_stays it time i target pos s :
  isActive it = true -> isAttracting it = true ->
  unitDraws s ->
  distance (point it) pos < 40 ->
  distance (point it) (fst (updateParticle it time i target pos s)) < 40.
Proof.
  intros Ha Hb Hs Hd.
  rewrite (updateParticle_attracted it time i target pos s Ha Hb Hd).
  pose proof (distance_sq (point it) pos) as Hsq.
  pose proof (distance_nonneg (point it) pos) as Hnn.
  pose proof (Hs 0%nat). pose proof (Hs 1%nat). pose proof (Hs 2%nat).
  apply distance_lt; [lra|]. simpl in *.
  set (a := ix it - vx pos) in *. set (b := iy it - vy pos) in *.
  set (c := iz it - vz pos) in *.
  set (u := s 0%nat) in *. set (v := s 1%nat) in *. set (w := s 2%nat) in *.
  replace (ix it - (vx pos + (ix it + (u - 0.5) * 5 - vx pos) * 0.05))
    with (0.95 * a - 0.05 * ((u - 0.5) * 5)) by (unfold a; lra).
  replace (iy it - (vy pos + (iy it + (v - 0.5) * 5 - vy pos) * 0.05))
    with (0.95 * b - 0.05 * ((v - 0.5) * 5)) by (unfold b; lra).
  replace (iz it - (vz pos + (iz it + (w - 0.5) * 5 - vz pos) * 0.05))
    with (0.95 * c - 0.05 * ((w - 0.5) * 5)) by (unfold c; lra).
  pose proof (jitter_step a b c u v w (distance (point it) pos)). lra.
Qed.

(** Over the frames the particle stays attracted, and on each axis its
    offset from the interaction point shrinks by 0.95 per frame toward
    the jitter band of half-width 2.5. *)
Lemma afterFrames_attracted it time draws i target pos n :
  isActive it = true -> isAttracting it = true ->
  (forall k, unitDraws (draws k)) ->
  distance (point it) pos < 40 ->
  let p := afterFrames it time draws i target n pos in
  distance (point it) p < 40 /\
  Rabs (vx p - ix it) <= 0.95 ^ n * Rabs (vx pos - ix it) + 2.5 * (1 - 0.95 ^ n) /\
  Rabs (vy p - iy it) <= 0.95 ^ n * Rabs (vy pos - iy it) + 2.5 * (1 - 0.95 ^ n) /\
  Rabs (vz p - iz it) <= 0.95 ^ n * Rabs (vz pos - iz it) + 2.5 * (1 - 0.95 ^ n).
Proof.
  intros Ha Hb Hs Hd. induction n as [|n IH].
  - simpl. repeat split; try lra.
  - cbv zeta in IH. destruct IH as [Hdn [Hx [Hy Hz]]].
    cbv zeta. simpl afterFrames.
    set (p := afterFrames it time draws i target n pos) in *.
    split; [apply attracted_stays; auto|].
    rewrite (updateParticle_attracted it (time n) i target p (draws n) Ha Hb Hdn).
    simpl vx. simpl vy. simpl vz.
    pose proof (Hs n 0%nat). pose proof (Hs n 1%nat). pose proof (Hs n 2%nat).
    apply Rabs_bound_inv in Hx. apply Rabs_bound_inv in Hy. apply Rabs_bound_inv in Hz.
    simpl pow. set (q := 0.95 ^ n) in *.
    set (ex := q * Rabs (vx pos - ix it)) in *.
    set (ey := q * Rabs (vy pos - iy it)) in *.
    set (ez := q * Rabs (vz pos - iz it)) in *.
    replace (0.95 * q * Rabs (vx pos - ix it)) with (0.95 * ex) by (unfold ex; ring).
    replace (0.95 * q * Rabs (vy pos - iy it)) with (0.95 * ey) by (unfold ey; ring).
    replace (0.95 * q * Rabs (vz pos - iz it)) with (0.95 * ez) by (unfold ez; ring).
    repeat split; apply Rabs_bound; lra.
Qed.

Lemma axis_le_distance a b :
  Rabs (vx b - vx a) <= distance a b /\
  Rabs (vy b - vy a) <= distance a b /\
  Rabs (vz b - vz a) <= distance a b.
Proof.
  unfold distance. cbv zeta.
  rewrite (Rabs_minus_sym (vx b)), (Rabs_minus_sym (vy b)), (Rabs_minus_sym (vz b)).
  apply axis_le_sqrt.
Qed.

(** C4.  With the interaction active and attracting, a particle less than
    40 away from the interaction point gets as its target the interaction
    point plus (u - 0.5) * 5 on each axis, u being one fresh draw per axis,
    so an offset in [-2.5, 2.5): the shape target, the drift and the time
    play no part.  A particle at distance 40 or more keeps the drifted
    shape target and consumes no draw.  Over repeated attracting frames
    with the same interaction point an affected particle stays affected,
    its offset from the point on each axis is at most
    0.95^n |offset at the start| + 2.5 (1 - 0.95^n) after n frames, and so
    is eventually within 2.5 + eps for every eps > 0, whatever the
    target. *)
Theorem C4_attraction_override it i pos :
  isActive it = true -> isAttracting it = true ->
  (distance (point it) pos < 40 ->
   forall time target s, unitDraws s ->
     let t := fst (effectiveTarget it time i target pos s) in
     t = vec3 (ix it + (s 0%nat - 0.5) * 5)
              (iy it + (s 1%nat - 0.5) * 5)
              (iz it + (s 2%nat - 0.5) * 5) /\
     -2.5 <= vx t - ix it < 2.5 /\
     -2.5 <= vy t - iy it < 2.5 /\
     -2.5 <= vz t - iz it < 2.5) /\
  (40 <= distance (point it) pos ->
   forall time target s,
     effectiveTarget it time i target pos s = (drifted time i target, s)) /\
  (distance (point it) pos < 40 ->
   forall time draws target, (forall k, unitDraws (draws k)) ->
     (forall n,
        let p := afterFrames it time draws i target n pos in
        distance (point it) p < 40 /\
        Rabs (vx p - ix it) <= 0.95 ^ n * Rabs (vx pos - ix it) + 2.5 * (1 - 0.95 ^ n) /\
        Rabs (vy p - iy it) <= 0.95 ^ n * Rabs (vy pos - iy it) + 2.5 * (1 - 0.95 ^ n) /\
        Rabs (vz p - iz it) <= 0.95 ^ n * Rabs (vz pos - iz it) + 2.5 * (1 - 0.95 ^ n)) /\
     (forall eps, 0 < eps -> exists N, forall n, (N <= n)%nat ->
        let p := afterFrames it time draws i target n pos in
        Rabs (vx p - ix it) < 2.5 + eps /\
        Rabs (vy p - iy it) < 2.5 + eps /\
        Rabs (vz p - iz it) < 2.5 + eps)).
Proof.
  intros Ha Hb. split; [|split].
  - intros Hd time target s Hs. cbv zeta.
    rewrite effectiveTarget_cases, Ha, Hb.
    destruct (Rlt_dec _ 40); [|contradiction]. simpl.
    pose proof (Hs 0%nat). pose proof (Hs 1%nat). pose proof (Hs 2%nat).
    repeat split; lra.
  - intros Hd time target s.
    rewrite effectiveTarget_cases, Ha, Hb.
    destruct (Rlt_dec _ 40); [lra | reflexivity].
  - intros Hd time draws target Hs. split.
    + intros n. now apply afterFrames_attracted.
    + intros eps Heps.
      destruct (pow_lt_1_zero 0.95) with (y := eps / 40) as [N HN].
      { rewrite Rabs_pos_eq; lra. }
      { lra. }
      exists N. intros n Hn. cbv zeta.
      destruct (afterFrames_attracted it time draws i target pos n Ha Hb Hs Hd)
        as [_ [Hx [Hy Hz]]].
      specialize (HN n Hn). pose proof (pow95_pos n) as Hq.
      rewrite Rabs_pos_eq in HN by lra.
      destruct (axis_le_distance (point it) pos) as [Dx [Dy Dz]]. simpl in Dx, Dy, Dz.
      pose proof (Rabs_pos (vx pos - ix it)). pose proof (Rabs_pos (vy pos - iy it)).
      pose proof (Rabs_pos (vz pos - iz it)).
      set (q := 0.95 ^ n) in *.
      assert (Hq40 : q * 40 < eps) by lra.
      repeat split.
      * assert (q * Rabs (vx pos - ix it) <= q * 40) by nra. lra.
      * assert (q * Rabs (vy pos - iy it) <= q * 40) by nra. lra.
      * assert (q * Rabs (vz pos - iz it) <= q * 40) by nra. lra.
Qed.

Lemma distance_nearby attracting :
  distance (point (pointOnAxis attracting)) nearby = 5.
Proof.
  unfold distance, pointOnAxis, nearby, point. simpl.
  replace ((0 - 3) * (0 - 3) + (0 - 4) * (0 - 4) + (30 - 30) * (30 - 30))
    with (5 * 5) by lra.
  apply sqrt_square. lra.
Qed.

Lemma C4_attraction_override_witness :
  distance (point (pointOnAxis true)) nearby < 40 /\
  (forall time target s, unitDraws s ->
     let t := fst (effectiveTarget (pointOnAxis true) time 7 target nearby s) in
     t = vec3 (0 + (s 0%nat - 0.5) * 5) (0 + (s 1%nat - 0.5) * 5)
              (30 + (s 2%nat - 0.5) * 5) /\
     -2.5 <= vx t - 0 < 2.5 /\ -2.5 <= vy t - 0 < 2.5 /\
     -2.5 <= vz t - 30 < 2.5) /\
  (forall time draws target, (forall k, unitDraws (draws k)) ->
     forall eps, 0 < eps -> exists N, forall n, (N <= n)%nat ->
       let p := afterFrames (pointOnAxis true) time draws 7 target n nearby in
       Rabs (vx p - 0) < 2.5 + eps /\
       Rabs (vy p - 0) < 2.5 + eps /\
       Rabs (vz p - 30) < 2.5 + eps).
Proof.
  assert (Hd : distance (point (pointOnAxis true)) nearby < 40)
    by (rewrite distance_nearby; lra).
  destruct (C4_attraction_override (pointOnAxis true) 7 nearby
              eq_refl eq_refl) as [H1 [_ H3]].
  split; [exact Hd|]. split.
  - exact (H1 Hd).
  - intros time draws target Hs. exact (proj2 (H3 Hd time draws target Hs)).
Defined.

(** *** Repulsion *)

Lemma sqrt_scaled (a b c k : R) :
  0 <= k ->
  sqrt (a * k * (a * k) + b * k * (b * k) + c * k * (c * k))
  = k * sqrt ((- a) * (- a) + (- b) * (- b) + (- c) * (- c)).
Proof.
  intros Hk.
  replace (a * k * (a * k) + b * k * (b * k) + c * k * (c * k))
    with (k * k * ((- a) * (- a) + (- b) * (- b) + (- c) * (- c))) by ring.
  rewrite sqrt_mult_alt by (apply Rmult_le_pos; assumption).
  now rewrite sqrt_square.
Qed.

(** A repelled target, and the offset added to it. *)
Lemma effectiveTarget_repelled it time i target pos s :
  isActive it = true -> isAttracting it = false ->
  distance (point it) pos < 25 ->
  effectiveTarget it time i target pos s =
    (vec3 (vx (drifted time i target) + (vx pos - ix it) * (2 * force it pos))
          (vy (drifted time i target) + (vy pos - iy it) * (2 * force it pos))
          (vz (drifted time i target) + (vz pos - iz it) * (2 * force it pos)),
     s).
Proof.
  intros Ha Hb Hd. rewrite effectiveTarget_cases, Ha, Hb.
  destruct (Rlt_dec _ 25); [|contradiction].
  cbv zeta. unfold force. f_equal. apply vec3_eq; lra.
Qed.

Lemma targetOffset_repelled it time i target pos s :
  isActive it = true -> isAttracting it = false ->
  distance (point it) pos < 25 ->
  targetOffset it time i target pos s =
    vec3 ((vx pos - ix it) * (2 * force it pos))
         ((vy pos - iy it) * (2 * force it pos))
         ((vz pos - iz it) * (2 * force it pos))
  /\ length (targetOffset it time i target pos s)
     = 2 * distance (point it) pos * force it pos.
Proof.
  intros Ha Hb Hd.
  assert (E : targetOffset it time i target pos s =
    vec3 ((vx pos - ix it) * (2 * force it pos))
         ((vy pos - iy it) * (2 * force it pos))
         ((vz pos - iz it) * (2 * force it pos))).
  { unfold targetOffset.
    rewrite (effectiveTarget_repelled it time i target pos s Ha Hb Hd).
    unfold sub. cbn [fst vx vy vz]. apply vec3_eq; lra. }
  split; [exact E|]. rewrite E. unfold length. cbn [vx vy vz].
  pose proof (distance_nonneg (point it) pos) as Hnn.
  assert (Hf : 0 <= 2 * force it pos) by (unfold force; lra).
  rewrite (sqrt_scaled _ _ _ _ Hf).
  unfold distance, point. cbn [vx vy vz].
  replace (- (vx pos - ix it)) with (ix it - vx pos) by lra.
  replace (- (vy pos - iy it)) with (iy it - vy pos) by lra.
  replace (- (vz pos - iz it)) with (iz it - vz pos) by lra.
  ring.
Qed.

(** C5, as the code has it.  With the interaction active and not
    attracting, a particle at distance d < 25 from the interaction point
    has force = (25 - d) / 25, which lies in (0,1], and its target is the
    drifted shape target plus the vector from the interaction point to the
    particle times 2 force on each axis (an offset added to the target,
    not a replacement).  The factor 2 force is larger for the closer of
    two such particles; the offset itself has length 2 d force.  A particle
    at distance 25 or more keeps the drifted shape target. *)
Theorem C5_repulsion_offset it time i target pos s :
  isActive it = true -> isAttracting it = false ->
  (distance (point it) pos < 25 ->
     force it pos = (25 - distance (point it) pos) / 25 /\
     0 < force it pos <= 1 /\
     effectiveTarget it time i target pos s =
       (vec3 (vx (drifted time i target) + (vx pos - ix it) * (2 * force it pos))
             (vy (drifted time i target) + (vy pos - iy it) * (2 * force it pos))
             (vz (drifted time i target) + (vz pos - iz it) * (2 * force it pos)),
        s) /\
     (forall pos', distance (point it) pos' < distance (point it) pos ->
                   2 * force it pos < 2 * force it pos') /\
     length (targetOffset it time i target pos s)
     = 2 * distance (point it) pos * force it pos) /\
  (25 <= distance (point it) pos ->
     effectiveTarget it time i target pos s = (drifted time i target, s)).
Proof.
  intros Ha Hb. split.
  - intros Hd. pose proof (distance_nonneg (point it) pos) as Hnn.
    split; [reflexivity|]. split; [unfold force; lra|]. split; [|split].
    + now apply effectiveTarget_repelled.
    + intros pos' Hlt. unfold force. lra.
    + now apply targetOffset_repelled.
  - intros Hd. rewrite effectiveTarget_cases, Ha, Hb.
    destruct (Rlt_dec _ 25); [lra | reflexivity].
Qed.

Lemma C5_repulsion_offset_witness :
  let it := pointOnAxis false in
  let target := vec3 25 0 0 in
  let s : RandomSource := fun _ => 0 in
  distance (point it) nearby < 25 /\
  force it nearby = (25 - distance (point it) nearby) / 25 /\
  0 < force it nearby <= 1 /\
  effectiveTarget it 0 7 target nearby s =
    (vec3 (vx (drifted 0 7 target) + (3 - 0) * (2 * force it nearby))
          (vy (drifted 0 7 target) + (4 - 0) * (2 * force it nearby))
          (vz (drifted 0 7 target) + (30 - 30) * (2 * force it nearby)),
     s) /\
  (forall pos', distance (point it) pos' < distance (point it) nearby ->
                2 * force it nearby < 2 * force it pos') /\
  length (targetOffset it 0 7 target nearby s)
  = 2 * distance (point it) nearby * force it nearby.
Proof.
  assert (Hd : distance (point (pointOnAxis false)) nearby < 25)
    by (rewrite distance_nearby; lra).
  split; [exact Hd|].
  exact (proj1 (C5_repulsion_offset (pointOnAxis false) 0 7 (vec3 25 0 0)
                  nearby (fun _ => 0) eq_refl eq_refl) Hd).
Defined.

Lemma distance_along_x x :
  0 <= x -> distance (point (pointOnAxis false)) (vec3 x 0 30) = x.
Proof.
  intros Hx. unfold distance, pointOnAxis, point. cbn [vx vy vz ix iy iz].
  replace ((0 - x) * (0 - x) + (0 - 0) * (0 - 0) + (30 - 30) * (30 - 30))
    with (x * x) by ring.
  now apply sqrt_square.
Qed.

(** C5, as stated, fails where it says that closer particles are pushed
    harder: with the interaction point at (0, 0, 30), a particle 1 away
    has its target moved by 1.92 and a particle 10 away by 12. *)
Lemma C5_closer_not_pushed_harder :
  let it := pointOnAxis false in
  let target := vec3 25 0 0 in
  let s : RandomSource := fun _ => 0 in
  let closer := vec3 1 0 30 in
  let farther := vec3 10 0 30 in
  distance (point it) closer = 1 /\
  distance (point it) farther = 10 /\
  length (targetOffset it 0 7 target closer s) = 1.92 /\
  length (targetOffset it 0 7 target farther s) = 12 /\
  ~ (forall p p',
       distance (point it) p < distance (point it) p' ->
       distance (point it) p' < 25 ->
       length (targetOffset it 0 7 target p' s)
       < length (targetOffset it 0 7 target p s)).
Proof.
  cbv zeta.
  assert (H1 : distance (point (pointOnAxis false)) (vec3 1 0 30) = 1)
    by (apply distance_along_x; lra).
  assert (H10 : distance (point (pointOnAxis false)) (vec3 10 0 30) = 10)
    by (apply distance_along_x; lra).
  assert (L1 : length (targetOffset (pointOnAxis false) 0 7 (vec3 25 0 0)
                         (vec3 1 0 30) (fun _ => 0)) = 1.92).
  { rewrite (proj2 (targetOffset_repelled (pointOnAxis false) 0 7 (vec3 25 0 0)
                      (vec3 1 0 30) (fun _ => 0) eq_refl eq_refl
                      ltac:(rewrite H1; lra))).
    unfold force. rewrite H1. lra. }
  assert (L10 : length (targetOffset (pointOnAxis false) 0 7 (vec3 25 0 0)
                          (vec3 10 0 30) (fun _ => 0)) = 12).
  { rewrite (proj2 (targetOffset_repelled (pointOnAxis false) 0 7 (vec3 25 0 0)
                      (vec3 10 0 30) (fun _ => 0) eq_refl eq_refl
                      ltac:(rewrite H10; lra))).
    unfold force. rewrite H10. lra. }
  repeat split; auto.
  intros H. specialize (H (vec3 1 0 30) (vec3 10 0 30)).
  rewrite H1, H10, L1, L10 in H. lra.
Qed.

End Integrator.

Section Locator.

Import Nebula3D.
Local Open Scope R_scope.

(** *** The perspective matrix and its inverse *)

Lemma mat4_eq a11 a12 a13 a14 a21 a22 a23 a24 a31 a32 a33 a34 a41 a42 a43 a44
      b11 b12 b13 b14 b21 b22 b23 b24 b31 b32 b33 b34 b41 b42 b43 b44 :
  a11 = b11 -> a12 = b12 -> a13 = b13 -> a14 = b14 ->
  a21 = b21 -> a22 = b22 -> a23 = b23 -> a24 = b24 ->
  a31 = b31 -> a32 = b32 -> a33 = b33 -> a34 = b34 ->
  a41 = b41 -> a42 = b42 -> a43 = b43 -> a44 = b44 ->
  mat4 a11 a12 a13 a14 a21 a22 a23 a24 a31 a32 a33 a34 a41 a42 a43 a44
  = mat4 b11 b12 b13 b14 b21 b22 b23 b24 b31 b32 b33 b34 b41 b42 b43 b44.
Proof. intros; subst; reflexivity. Qed.

Lemma half_fov_tan cam :
  0 < fov cam < 180 -> 0 < tan (PI / 180 * 0.5 * fov cam).
Proof.
  intros H. pose proof PI_RGT_0 as Hpi.
  assert (E : PI / 180 * 0.5 * fov cam = PI / 2 * (fov cam / 180)) by lra.
  apply tan_gt_0.
  - rewrite E. apply Rmult_lt_0_compat; lra.
  - rewrite E. rewrite <- (Rmult_1_r (PI / 2)) at 2.
    apply Rmult_lt_compat_l; lra.
Qed.

(** The frustum of [updateProjectionMatrix] is symmetric: the matrix has
    no skew terms. *)
Lemma projectionMatrix_eq cam :
  properCamera cam ->
  let T := tan (PI / 180 * 0.5 * fov cam) in
  projectionMatrix cam =
  mat4 (1 / (aspect cam * T)) 0 0 0
       0 (1 / T) 0 0
       0 0 (- (far cam + near cam) / (far cam - near cam))
           (- 2 * far cam * near cam / (far cam - near cam))
       0 0 (-1) 0.
Proof.
  intros [Hf [Ha Hn]] T. pose proof (half_fov_tan cam Hf) as HT. fold T in HT.
  unfold projectionMatrix, makePerspective. fold T. cbv zeta.
  set (top := near cam * T / 1).
  set (width := aspect cam * (2 * top)).
  replace (-0.5 * width + width - -0.5 * width) with width by lra.
  replace (-0.5 * width + width + -0.5 * width) with 0 by lra.
  replace (top - (top - 2 * top)) with (2 * top) by lra.
  replace (top + (top - 2 * top)) with 0 by lra.
  unfold width, top. apply mat4_eq; try reflexivity; try (field; lra).
Qed.

Lemma invert_perspective (x y c d : R) :
  x <> 0 -> y <> 0 -> d <> 0 ->
  invert (mat4 x 0 0 0
               0 y 0 0
               0 0 c d
               0 0 (-1) 0)
  = mat4 (1 / x) 0 0 0
         0 (1 / y) 0 0
         0 0 0 (-1)
         0 0 (1 / d) (c / d).
Proof.
  intros Hx Hy Hd.
  assert (Hdet : determinant (mat4 x 0 0 0 0 y 0 0 0 0 c d 0 0 (-1) 0) = x * y * d).
  { unfold determinant, cof11, cof12, cof13, cof14, det3.
    cbn [n11 n12 n13 n14 n21 n22 n23 n24 n31 n32 n33 n34 n41 n42 n43 n44].
    ring. }
  unfold invert. rewrite Hdet.
  destruct (Req_dec_T (x * y * d) 0) as [E|_].
  - exfalso. apply Rmult_integral in E. destruct E as [E|E]; [|contradiction].
    apply Rmult_integral in E. tauto.
  - unfold cof11, cof12, cof13, cof14, cof21, cof22, cof23, cof24,
      cof31, cof32, cof33, cof34, cof41, cof42, cof43, cof44, det3.
    cbn [n11 n12 n13 n14 n21 n22 n23 n24 n31 n32 n33 n34 n41 n42 n43 n44].
    apply mat4_eq; field; auto.
Qed.

(** The inverse the model computes is an inverse. *)
Lemma invert_perspective_inverse (x y c d : R) :
  x <> 0 -> y <> 0 -> d <> 0 ->
  let m := mat4 x 0 0 0 0 y 0 0 0 0 c d 0 0 (-1) 0 in
  multiply m (invert m) = identity /\ multiply (invert m) m = identity.
Proof.
  intros Hx Hy Hd m. unfold m. rewrite invert_perspective by assumption.
  unfold multiply, identity.
  cbn [n11 n12 n13 n14 n21 n22 n23 n24 n31 n32 n33 n34 n41 n42 n43 n44].
  split; apply mat4_eq; field; auto.
Qed.

(** The centre of the screen at depth 0.5 unprojects, in camera space, to
    a point on the axis in front of the camera. *)
Lemma unproject_centre_camera cam :
  properCamera cam ->
  applyMatrix4 (vec3 0 0 0.5) (projectionMatrixInverse cam)
  = vec3 0 0 (- (4 * far cam * near cam / (far cam + 3 * near cam))).
Proof.
  intros Hc. pose proof Hc as [Hf [Ha Hn]].
  pose proof (half_fov_tan cam Hf) as HT.
  unfold projectionMatrixInverse. rewrite (projectionMatrix_eq cam Hc). cbv zeta.
  set (T := tan (PI / 180 * 0.5 * fov cam)) in *.
  assert (Hx : 1 / (aspect cam * T) <> 0).
  { apply Rgt_not_eq. apply Rdiv_lt_0_compat; [lra|]. apply Rmult_lt_0_compat; lra. }
  assert (Hy : 1 / T <> 0).
  { apply Rgt_not_eq. apply Rdiv_lt_0_compat; lra. }
  assert (Hd : - 2 * far cam * near cam / (far cam - near cam) <> 0).
  { apply Rlt_not_eq.
    assert (0 < 2 * far cam * near cam / (far cam - near cam)).
    { apply Rdiv_lt_0_compat; [|lra].
      apply Rmult_lt_0_compat; [|lra]. lra. }
    lra. }
  rewrite (invert_perspective _ _ _ _ Hx Hy Hd).
  unfold applyMatrix4.
  cbn [n11 n12 n13 n14 n21 n22 n23 n24 n31 n32 n33 n34 n41 n42 n43 n44 vx vy vz].
  replace 0.5 with (/ 2) by lra.
  apply vec3_eq; field; lra.
Qed.

Lemma normalize_down z : z < 0 -> normalize (vec3 0 0 z) = vec3 0 0 (-1).
Proof.
  intros Hz. unfold normalize, length, multiplyScalar. cbn [vx vy vz].
  replace (0 * 0 + 0 * 0 + z * z) with ((- z) * (- z)) by ring.
  rewrite sqrt_square by lra.
  destruct (Req_dec_T (- z) 0) as [E|_]; [lra|].
  apply vec3_eq; field; lra.
Qed.

(** The ray through the centre of the screen points down the axis. *)
Lemma centre_ray cam D :
  properCamera cam ->
  position cam = vec3 0 0 D ->
  (matrixWorld cam = makeTranslation (position cam) \/
   (matrixWorld cam = identity /\ 0 <= D)) ->
  normalize (sub (unproject (vec3 0 0 0.5) cam) (position cam)) = vec3 0 0 (-1).
Proof.
  intros Hc Hp Hw. pose proof Hc as [Hf [Ha Hn]].
  unfold unproject. rewrite (unproject_centre_camera cam Hc).
  set (z := 4 * far cam * near cam / (far cam + 3 * near cam)).
  assert (Hz : 0 < z).
  { unfold z. apply Rdiv_lt_0_compat; [|lra].
    apply Rmult_lt_0_compat; [|lra]. lra. }
  destruct Hw as [-> | [-> HD]]; rewrite Hp;
    unfold applyMatrix4, makeTranslation, identity, sub;
    cbn [n11 n12 n13 n14 n21 n22 n23 n24 n31 n32 n33 n34 n41 n42 n43 n44 vx vy vz].
  - replace ((1 * 0 + 0 * 0 + 0 * - z + 0) * (1 / (0 * 0 + 0 * 0 + 0 * - z + 1)) - 0)
      with 0 by (field; lra).
    replace ((0 * 0 + 1 * 0 + 0 * - z + 0) * (1 / (0 * 0 + 0 * 0 + 0 * - z + 1)) - 0)
      with 0 by (field; lra).
    replace ((0 * 0 + 0 * 0 + 1 * - z + D) * (1 / (0 * 0 + 0 * 0 + 0 * - z + 1)) - D)
      with (- z) by (field; lra).
    apply normalize_down. lra.
  - replace ((1 * 0 + 0 * 0 + 0 * - z + 0) * (1 / (0 * 0 + 0 * 0 + 0 * - z + 1)) - 0)
      with 0 by (field; lra).
    replace ((0 * 0 + 1 * 0 + 0 * - z + 0) * (1 / (0 * 0 + 0 * 0 + 0 * - z + 1)) - 0)
      with 0 by (field; lra).
    replace ((0 * 0 + 0 * 0 + 1 * - z + 0) * (1 / (0 * 0 + 0 * 0 + 0 * - z + 1)) - D)
      with (- z - D) by (field; lra).
    apply normalize_down. lra.
Qed.

(** C8.  In pointer mode, with a camera of proper frustum placed on the
    z-axis at (0, 0, D) and looking along -z, and the pointer at the
    centre of the screen, the ray obtained by unprojecting (0, 0, 0.5)
    has direction (0, 0, -1), meets the plane z = 0 at ray parameter D in
    the point (0, 0, 0), and the interaction point is (0, 0, 30): x and y
    from the intersection, z the default interaction depth; this for any
    field of view in (0, 180) degrees, any positive aspect ratio and any
    0 < near < far. *)
Theorem C8_pointer_centre cam D hand down :
  properCamera cam ->
  position cam = vec3 0 0 D ->
  (matrixWorld cam = makeTranslation (position cam) \/
   (matrixWorld cam = identity /\ 0 <= D)) ->
  let vec := unproject (vec3 0 0 0.5) cam in
  let dir := normalize (sub vec (position cam)) in
  let dist := - vz (position cam) / vz dir in
  dir = vec3 0 0 (-1) /\
  dist = D /\
  add (position cam) (multiplyScalar dir dist) = vec3 0 0 0 /\
  interactionPoint mouse cam hand (0, 0) down = mkInteraction 0 0 30 true down.
Proof.
  intros Hc Hp Hw. cbv zeta.
  pose proof (centre_ray cam D Hc Hp Hw) as Hdir.
  unfold interactionPoint. cbn [fst snd]. rewrite Hdir, Hp.
  unfold add, multiplyScalar. cbn [vx vy vz].
  split; [reflexivity|]. split; [field|]. split.
  - apply vec3_eq; field.
  - f_equal; field.
Qed.

Lemma C8_pointer_centre_witness :
  let cam := sceneCamera (16 / 9) in
  let vec := unproject (vec3 0 0 0.5) cam in
  let dir := normalize (sub vec (position cam)) in
  let dist := - vz (position cam) / vz dir in
  dir = vec3 0 0 (-1) /\
  dist = 80 /\
  add (position cam) (multiplyScalar dir dist) = vec3 0 0 0 /\
  interactionPoint mouse cam App.lostHand (0, 0) false
    = mkInteraction 0 0 30 true false.
Proof.
  apply (C8_pointer_centre (sceneCamera (16 / 9)) 80 App.lostHand false).
  - unfold properCamera, sceneCamera. cbn [fov aspect near far]. lra.
  - reflexivity.
  - left. reflexivity.
Defined.

End Locator.

(** * Further properties of the hand-sample callback *)

Section GestureInvariants.

Import App.

(** *** The buffer stays bounded *)

Lemma onHandResults_buffer c st data :
  let st' := fst (onHandResults c st data) in
  gestureBuffer st' = gestureBuffer st \/
  gestureBuffer st' = addToBuffer (gestureBuffer st) (fingersUp data) \/
  gestureBuffer st' = [].
Proof.
  unfold onHandResults. destruct (detected data); simpl; auto.
  destruct (findConsensus _) as [[fingers cnt]|]; simpl; auto.
  destruct (negb (shape_eqb (mapFingers c fingers) c)); simpl; auto.
  unfold changeShape. simpl.
  destruct (negb (shape_eqb (currentShape st) (mapFingers c fingers)));
    simpl; auto.
Qed.

Lemma addToBuffer_entries buffer n (P : nat -> Prop) :
  Forall P buffer -> P n -> Forall P (addToBuffer buffer n).
Proof.
  intros Hb Hn. unfold addToBuffer, push, shift.
  assert (H : Forall P (buffer ++ [n])) by (apply Forall_app; auto).
  destruct (GESTURE_BUFFER_SIZE <? length (buffer ++ [n])); auto.
  destruct (buffer ++ [n]); simpl; auto. now inversion H.
Qed.

(** X1.  Whatever the samples and whatever the closure, a gesture buffer
    of at most 15 entries never grows beyond 15 entries, and a buffer
    whose entries are at most 5 keeps entries of at most 5 as long as the
    samples have at most five fingers up. *)
Theorem gestureBuffer_bounded pick samples : forall st,
  length (gestureBuffer st) <= GESTURE_BUFFER_SIZE ->
  Forall (fun e => length (snd e) <= GESTURE_BUFFER_SIZE) (feed pick st samples)
  /\ (Forall (fun n => n <= 5) (gestureBuffer st) ->
      Forall (fun d => fingersUp d <= 5) samples ->
      Forall (fun e => Forall (fun n => n <= 5) (snd e)) (feed pick st samples)).
Proof.
  induction samples as [|d rest IH]; intros st Hlen.
  - simpl. split; intros; constructor.
  - simpl.
    assert (Hlen' : length (gestureBuffer (fst (onHandResults (pick st) st d)))
                    <= GESTURE_BUFFER_SIZE).
    { destruct (onHandResults_buffer (pick st) st d) as [E|[E|E]];
        cbv zeta in E; rewrite E; auto using addToBuffer_length.
      simpl. unfold GESTURE_BUFFER_SIZE. lia. }
    destruct (IH _ Hlen') as [IH1 IH2]. split.
    + constructor; auto.
    + intros Hb Hs. inversion_clear Hs as [|? ? Hd Hrest].
      assert (Hb' : Forall (fun n => n <= 5)
                      (gestureBuffer (fst (onHandResults (pick st) st d)))).
      { destruct (onHandResults_buffer (pick st) st d) as [E|[E|E]];
          cbv zeta in E; rewrite E; auto using addToBuffer_entries. }
      constructor; auto.
Qed.

Lemma gestureBuffer_bounded_witness :
  Forall (fun e => length (snd e) <= GESTURE_BUFFER_SIZE)
         (feed currentShape startState (map sampleOf (repeat 1 20)))
  /\ (Forall (fun n => n <= 5) (gestureBuffer startState) ->
      Forall (fun d => fingersUp d <= 5) (map sampleOf (repeat 1 20)) ->
      Forall (fun e => Forall (fun n => n <= 5) (snd e))
             (feed currentShape startState (map sampleOf (repeat 1 20)))).
Proof.
  apply (gestureBuffer_bounded currentShape (map sampleOf (repeat 1 20))
           startState).
  simpl. unfold GESTURE_BUFFER_SIZE. lia.
Defined.

(** *** Debounce *)

Lemma frequency_le_length window k : frequency window k <= length window.
Proof. unfold frequency. apply count_occ_bound. Qed.

Lemma feed_short pick : forall samples st,
  length (gestureBuffer st) + length samples <= 12 ->
  Forall (fun e => fst e = None) (feed pick st samples).
Proof.
  induction samples as [|d rest IH]; intros st Hlen; simpl.
  - constructor.
  - simpl in Hlen. destruct (detected d) eqn:Hd.
    + assert (Hw : addToBuffer (gestureBuffer st) (fingersUp d)
                   = gestureBuffer st ++ [fingersUp d]).
      { unfold addToBuffer, push, GESTURE_BUFFER_SIZE.
        replace (15 <? length (gestureBuffer st ++ [fingersUp d])) with false; auto.
        symmetry. apply Nat.ltb_ge. rewrite length_app. simpl. lia. }
      assert (Hnone : findConsensus
                        (countAll (addToBuffer (gestureBuffer st) (fingersUp d)))
                      = None).
      { apply findConsensus_none. intros k.
        pose proof (frequency_le_length
                      (addToBuffer (gestureBuffer st) (fingersUp d)) k) as H.
        unfold frequency in H. rewrite Hw, length_app in *. simpl in *. lia. }
      rewrite (onHandResults_no_consensus (pick st) st d Hd Hnone). simpl.
      constructor.
      * simpl. unfold committed. simpl. now rewrite shape_eqb_refl.
      * apply IH. simpl. rewrite Hw, length_app. simpl. lia.
    + assert (E : onHandResults (pick st) st d
                  = (setHandData d st, audio st (updateInteraction 0%Q))).
      { unfold onHandResults. now rewrite Hd. }
      rewrite E. simpl. constructor.
      * simpl. unfold committed. now rewrite shape_eqb_refl.
      * apply IH. simpl. lia.
Qed.

(** X2.  "Reset buffer on change to prevent bouncing": once the shape has
    been changed, by gesture or by button, to a shape other than the
    current one, the buffer is empty and the next 12 hand samples,
    whatever they are, commit no further change. *)
Theorem change_debounced pick st shape samples :
  shape <> currentShape st ->
  length samples <= 12 ->
  let st' := fst (changeShape shape st) in
  currentShape st' = shape /\ gestureBuffer st' = [] /\
  Forall (fun e => fst e = None) (feed pick st' samples).
Proof.
  intros Hne Hlen. cbv zeta. unfold changeShape.
  rewrite (shape_eqb_neq (currentShape st) shape) by congruence. simpl.
  split; [reflexivity|]. split; [reflexivity|].
  apply feed_short. simpl. exact Hlen.
Qed.

Lemma change_debounced_witness :
  let st' := fst (changeShape HEART startState) in
  currentShape st' = HEART /\ gestureBuffer st' = [] /\
  Forall (fun e => fst e = None)
         (feed currentShape st' (map sampleOf (repeat 3 12))).
Proof.
  apply (change_debounced currentShape startState HEART
           (map sampleOf (repeat 3 12))).
  - discriminate.
  - simpl. lia.
Defined.

(** *** What a gesture can commit *)

(** X3.  Whatever the closure, a hand sample never commits Sphere: a
    committed shape is Flower, Saturn, Heart or Fireworks, the sample is
    a detected one, the shape is the one the table gives for a finger
    count occurring more than 12 times in the buffer, it differs from the
    shape before, and the buffer is left empty. *)
Theorem committed_by_gesture c st data shape :
  committed st (fst (onHandResults c st data)) = Some shape ->
  shape <> SPHERE /\
  shape <> currentShape st /\
  detected data = true /\
  gestureBuffer (fst (onHandResults c st data)) = [] /\
  exists fingers,
    gestureShape fingers = Some shape /\
    12 < frequency (addToBuffer (gestureBuffer st) (fingersUp data)) fingers.
Proof.
  unfold onHandResults, committed. destruct (detected data); simpl.
  - destruct (findConsensus _) as [[fingers cnt]|] eqn:E; simpl.
    + apply findConsensus_sound in E. destruct E as [-> Hc].
      fold (frequency (addToBuffer (gestureBuffer st) (fingersUp data)) fingers) in *.
      destruct (negb (shape_eqb (mapFingers c fingers) c)) eqn:E1; simpl.
      * unfold changeShape. simpl.
        destruct (shape_eqb (currentShape st) (mapFingers c fingers)) eqn:E2; simpl.
        -- rewrite shape_eqb_refl. discriminate.
        -- rewrite E2. intros H. inversion H; subst shape. clear H.
           assert (Hm : gestureShape fingers = Some (mapFingers c fingers)).
           { unfold mapFingers, gestureShape in *.
             destruct fingers as [|[|[|[|[|[|n]]]]]]; simpl in *;
               try reflexivity; rewrite shape_eqb_refl in E1; discriminate. }
           repeat split; auto.
           ++ intros Hs. rewrite Hs in Hm.
              destruct fingers as [|[|[|[|[|[|n]]]]]]; discriminate.
           ++ intros Hs. rewrite Hs, shape_eqb_refl in E2. discriminate.
           ++ eauto.
      * rewrite shape_eqb_refl. discriminate.
    + rewrite shape_eqb_refl. discriminate.
  - rewrite shape_eqb_refl. discriminate.
Qed.

Lemma committed_by_gesture_witness :
  let st := mkState FLOWER lostHand (repeat 4 12) true in
  HEART <> SPHERE /\
  HEART <> currentShape st /\
  detected (sampleOf 4) = true /\
  gestureBuffer (fst (onHandResults SPHERE st (sampleOf 4))) = [] /\
  exists fingers,
    gestureShape fingers = Some HEART /\
    12 < frequency (addToBuffer (gestureBuffer st) (fingersUp (sampleOf 4))) fingers.
Proof.
  apply (committed_by_gesture SPHERE
           (mkState FLOWER lostHand (repeat 4 12) true) (sampleOf 4) HEART).
  vm_compute. reflexivity.
Defined.

(** *** The consensus is unique *)

Lemma two_values_fit window a b :
  a <> b -> frequency window a + frequency window b <= length window.
Proof.
  intros Hab. unfold frequency. induction window as [|x w IH]; simpl; auto.
  destruct (Nat.eq_dec x a), (Nat.eq_dec x b); subst; try congruence; lia.
Qed.

(** X4.  In a buffer of at most 15 entries at most one value occurs more
    than 12 times, and the consensus search returns exactly that value
    with its number of occurrences: the order in which the counts are
    searched plays no part. *)
Theorem consensus_unique window k count :
  length window <= GESTURE_BUFFER_SIZE ->
  (findConsensus (countAll window) = Some (k, count) <->
   count = frequency window k /\ 12 < count).
Proof.
  intros Hlen. unfold GESTURE_BUFFER_SIZE in Hlen. split.
  - apply findConsensus_sound.
  - intros [-> Hk].
    destruct (findConsensus (countAll window)) as [[k' c']|] eqn:E.
    + apply findConsensus_sound in E. destruct E as [-> Hc'].
      destruct (Nat.eq_dec k k') as [->|Hne]; [reflexivity|].
      pose proof (two_values_fit window k k' Hne). unfold frequency in *. lia.
    + rewrite findConsensus_none in E. specialize (E k).
      unfold frequency in Hk. lia.
Qed.

Lemma consensus_unique_witness :
  findConsensus (countAll (repeat 2 2 ++ repeat 5 13)) = Some (5, 13) <->
  13 = frequency (repeat 2 2 ++ repeat 5 13) 5 /\ 12 < 13.
Proof.
  apply (consensus_unique (repeat 2 2 ++ repeat 5 13) 5 13).
  simpl. unfold GESTURE_BUFFER_SIZE. lia.
Defined.

End GestureInvariants.

(** * From the pinch to the sound *)

Section PinchToSound.

Import App.
Local Open Scope Q_scope.

Lemma clamp_monotone x y lo hi :
  lo <= hi -> x <= y -> clamp x lo hi <= clamp y lo hi.
Proof.
  intros Hlh Hxy. unfold clamp.
  destruct (Qltb x lo) eqn:Ex; destruct (Qltb y lo) eqn:Ey;
    destruct (Qltb hi x) eqn:Ex'; destruct (Qltb hi y) eqn:Ey';
    repeat match goal with
           | H : Qltb _ _ = true |- _ => apply Qltb_true in H
           | H : Qltb _ _ = false |- _ => apply Qltb_false in H
           end; lra.
Qed.

Lemma open_hand_intensities a b :
  isPinching a = false -> isPinching b = false ->
  pinchDistance a <= pinchDistance b ->
  pinchIntensity b <= pinchIntensity a.
Proof.
  intros Ha Hb Hab.
  rewrite (pinchIntensity_open a Ha), (pinchIntensity_open b Hb).
  pose proof (clamp_monotone (pinchDistance a) (pinchDistance b) 0.05 0.3
                ltac:(lra) Hab) as Hm.
  set (ca := clamp (pinchDistance a) 0.05 0.3) in *.
  set (cb := clamp (pinchDistance b) 0.05 0.3) in *.
  assert (Ea : (ca - 0.05) / 0.25 == (ca - 0.05) * 4) by field.
  assert (Eb : (cb - 0.05) / 0.25 == (cb - 0.05) * 4) by field.
  rewrite Ea, Eb. lra.
Qed.

(** X5.  "Map distance 0.05 -> 0.3 to 1 -> 0": for an open (unpinched)
    hand the intensity does not increase with the pinch distance, it is
    1 up to distance 0.05 and 0 from distance 0.3 on. *)
Theorem pinchIntensity_decreasing a b :
  isPinching a = false -> isPinching b = false ->
  pinchDistance a <= pinchDistance b ->
  pinchIntensity b <= pinchIntensity a
  /\ (pinchDistance a <= 0.05 -> pinchIntensity a == 1)
  /\ (0.3 <= pinchDistance a -> pinchIntensity a == 0).
Proof.
  intros Ha Hb Hab.
  split; [now apply open_hand_intensities|].
  rewrite (pinchIntensity_open a Ha).
  set (ca := clamp (pinchDistance a) 0.05 0.3).
  assert (Ea : (ca - 0.05) / 0.25 == (ca - 0.05) * 4) by field.
  split.
  - intros Hd. rewrite Ea.
    assert (ca == 0.05).
    { unfold ca, clamp. destruct (Qltb (pinchDistance a) 0.05) eqn:E1; [reflexivity|].
      apply Qltb_false in E1.
      destruct (Qltb 0.3 (pinchDistance a)) eqn:E2.
      - apply Qltb_true in E2. lra.
      - lra. }
    lra.
  - intros Hd. rewrite Ea.
    assert (ca == 0.3).
    { unfold ca, clamp. destruct (Qltb (pinchDistance a) 0.05) eqn:E1.
      - apply Qltb_true in E1. lra.
      - destruct (Qltb 0.3 (pinchDistance a)) eqn:E2; [reflexivity|].
        apply Qltb_false in E2. lra. }
    lra.
Qed.

Lemma pinchIntensity_decreasing_witness :
  let a := mkHandData 2 false 0.1 (0.5, 0.5) true in
  let b := mkHandData 2 false 0.2 (0.5, 0.5) true in
  pinchIntensity b <= pinchIntensity a
  /\ (pinchDistance a <= 0.05 -> pinchIntensity a == 1)
  /\ (0.3 <= pinchDistance a -> pinchIntensity a == 0).
Proof.
  apply (pinchIntensity_decreasing
           (mkHandData 2 false 0.1 (0.5, 0.5) true)
           (mkHandData 2 false 0.2 (0.5, 0.5) true)).
  - reflexivity.
  - reflexivity.
  - vm_compute. discriminate.
Defined.

End PinchToSound.

(** * The hand tracker *)

Section Tracker.

Import HandTracker.
Local Open Scope R_scope.

Lemma ltb_true_iff a b : ltb a b = true <-> a < b.
Proof. unfold ltb. destruct (Rlt_dec a b); split; auto; discriminate. Qed.

Lemma filter_length_le {A} (f : A -> bool) l :
  (List.length (filter f l) <= List.length l)%nat.
Proof. induction l as [|x l IH]; simpl; auto. destruct (f x); simpl; lia. Qed.

Lemma hypot_nonneg a b : 0 <= Math_hypot a b.
Proof. apply sqrt_pos. Qed.

Lemma sumsq2_nonneg (a b : R) : 0 <= a * a + b * b.
Proof. nra. Qed.

(** Comparing a [Math.hypot] with 0.05 is comparing the sum of squares
    with 0.0025. *)
Lemma hypot_lt_threshold a b :
  Math_hypot a b < 0.05 <-> a * a + b * b < 0.0025.
Proof.
  unfold Math_hypot.
  assert (E : sqrt 0.0025 = 0.05).
  { replace 0.0025 with (0.05 * 0.05) by lra. apply sqrt_square. lra. }
  rewrite <- E. split.
  - apply sqrt_lt_0_alt.
  - intros H. apply sqrt_lt_1_alt. split; [apply sumsq2_nonneg | exact H].
Qed.

Lemma hypot_gt_threshold a b :
  0.05 < Math_hypot a b <-> 0.0025 < a * a + b * b.
Proof.
  unfold Math_hypot.
  assert (E : sqrt 0.0025 = 0.05).
  { replace 0.0025 with (0.05 * 0.05) by lra. apply sqrt_square. lra. }
  rewrite <- E. split.
  - apply sqrt_lt_0_alt.
  - intros H. apply sqrt_lt_1_alt. split; [lra | exact H].
Qed.

Lemma processResults_fingers results :
  (fingersUp (processResults results) <= 5)%nat.
Proof.
  destruct results as [[|hand others]|]; simpl; try lia.
  apply (filter_length_le (fun f => f) (fingers hand)).
Qed.

(** X6.  The tracker reports between 0 and 5 fingers up.  Without a hand
    (no landmark list, or an empty one) it reports the idle sample: not
    detected, no finger, pinch distance 1, position at the centre.  With
    hands it reports the first one only, as detected, with the index tip
    mirrored in x; the thumb counts as up exactly when its tip is more
    than 0.05 from the index base. *)
Theorem processResults_sample results :
  let s := processResults results in
  (fingersUp s <= 5)%nat
  /\ (results = None \/ results = Some [] ->
      s = mkSample 0 false 1 (0.5, 0.5) false)
  /\ (forall hand others, results = Some (hand :: others) ->
        s = processResults (Some [hand])
        /\ detected s = true
        /\ handPosition s = (1 - lx (hand 8%nat), ly (hand 8%nat))
        /\ (0 <= lx (hand 8%nat) <= 1 -> 0 <= fst (handPosition s) <= 1)
        /\ (nth 0 (fingers hand) false = true <->
            0.0025 < (lx (hand 4%nat) - lx (hand 5%nat)) * (lx (hand 4%nat) - lx (hand 5%nat))
                     + (ly (hand 4%nat) - ly (hand 5%nat)) * (ly (hand 4%nat) - ly (hand 5%nat)))).
Proof.
  cbv zeta. split; [|split].
  - apply processResults_fingers.
  - intros [-> | ->]; reflexivity.
  - intros hand others ->. simpl.
    split; [reflexivity|]. split; [reflexivity|]. split; [reflexivity|].
    split; [intros H; lra|].
    rewrite ltb_true_iff. apply hypot_gt_threshold.
Qed.

(** X7.  The pinch flag of a tracked hand is set exactly when the index
    tip and the thumb tip are less than 0.05 apart, that is when the sum
    of the squared coordinate differences is below 0.0025; the pinch
    distance is never negative. *)
Theorem processResults_pinch hand others :
  let s := processResults (Some (hand :: others)) in
  let dx := lx (hand 8%nat) - lx (hand 4%nat) in
  let dy := ly (hand 8%nat) - ly (hand 4%nat) in
  0 <= pinchDistance s
  /\ pinchDistance s * pinchDistance s = dx * dx + dy * dy
  /\ (isPinching s = true <-> pinchDistance s < 0.05)
  /\ (isPinching s = true <-> dx * dx + dy * dy < 0.0025)
  /\ (isPinching s = false <-> 0.05 <= pinchDistance s).
Proof.
  cbv zeta. simpl.
  split; [apply hypot_nonneg|].
  split; [unfold Math_hypot; apply sqrt_sqrt, sumsq2_nonneg|].
  split; [apply ltb_true_iff|].
  split; [rewrite ltb_true_iff; apply hypot_lt_threshold|].
  unfold ltb. destruct (Rlt_dec _ 0.05); split; intros; try lra; congruence.
Qed.

End Tracker.

Section TrackerToCallback.

Import App.

(** X8.  The tracker sets the pinch flag only on a pinch distance below
    0.05.  For every hand sample whose flag is set only on such a
    distance, the flag is redundant in the intensity: pinching or not,
    the intensity is 1 - (clamp(pinchDistance, 0.05, 0.3) - 0.05) / 0.25,
    which is what the callback computes for the same sample with the flag
    cleared. *)
Theorem tracked_sample_intensity data results :
  (isPinching data = true -> (pinchDistance data < 0.05)%Q) ->
  let s := HandTracker.processResults results in
  (HandTracker.isPinching s = true ->
   (HandTracker.pinchDistance s < 0.05)%R)
  /\ (pinchIntensity data
      == 1 - (clamp (pinchDistance data) 0.05 0.3 - 0.05) / 0.25)%Q
  /\ (pinchIntensity data
      == pinchIntensity (mkHandData (fingersUp data) false (pinchDistance data)
                                    (handPosition data) (detected data)))%Q.
Proof.
  intros Hflag s.
  assert (Hformula : (pinchIntensity data
            == 1 - (clamp (pinchDistance data) 0.05 0.3 - 0.05) / 0.25)%Q).
  { destruct (isPinching data) eqn:E.
    - specialize (Hflag eq_refl).
      unfold pinchIntensity. rewrite E.
      assert (Ec : (clamp (pinchDistance data) 0.05 0.3 == 0.05)%Q).
      { unfold clamp.
        destruct (Qltb (pinchDistance data) 0.05) eqn:E1; [reflexivity|].
        apply Qltb_false in E1. lra. }
      rewrite Ec. reflexivity.
    - now apply pinchIntensity_open. }
  split; [|split].
  - subst s. destruct results as [[|hand others]|];
      cbn [HandTracker.processResults HandTracker.isPinching
           HandTracker.pinchDistance]; try discriminate.
    apply ltb_true_iff.
  - exact Hformula.
  - rewrite Hformula. symmetry.
    apply (pinchIntensity_open
             (mkHandData (fingersUp data) false (pinchDistance data)
                         (handPosition data) (detected data))).
    reflexivity.
Qed.

Lemma tracked_sample_intensity_witness :
  let data := mkHandData 2 true 0.03%Q (0.5%Q, 0.5%Q) true in
  let hand := fun k : nat =>
    if (k =? 8)%nat then HandTracker.mkLandmark 0.53 0.5
    else HandTracker.mkLandmark 0.5 0.5 in
  let s := HandTracker.processResults (Some [hand]) in
  (HandTracker.isPinching s = true ->
   (HandTracker.pinchDistance s < 0.05)%R)
  /\ (pinchIntensity data
      == 1 - (clamp (pinchDistance data) 0.05 0.3 - 0.05) / 0.25)%Q
  /\ (pinchIntensity data
      == pinchIntensity (mkHandData (fingersUp data) false (pinchDistance data)
                                    (handPosition data) (detected data)))%Q.
Proof.
  apply (tracked_sample_intensity
           (mkHandData 2 true 0.03%Q (0.5%Q, 0.5%Q) true)
           (Some [fun k : nat =>
                    if (k =? 8)%nat then HandTracker.mkLandmark 0.53 0.5
                    else HandTracker.mkLandmark 0.5 0.5])).
  intros _. reflexivity.
Defined.

End TrackerToCallback.

(** * The audio manager *)

Section Audio.

Import App.
Local Open Scope Q_scope.

Lemma perform_create call : AudioManager.perform AudioManager.create call = AudioManager.create.
Proof. destruct call; reflexivity. Qed.

(** X9.  Before [initialize] the manager ignores every request, whatever
    the sequence; [initialize] run again changes nothing, so it never
    resets a drone that has been driven by [updateInteraction]. *)
Theorem audio_before_and_after_initialize calls m intensity :
  AudioManager.performAll AudioManager.create calls = AudioManager.create
  /\ AudioManager.initialize (AudioManager.initialize m) = AudioManager.initialize m
  /\ AudioManager.initialize
       (AudioManager.updateInteraction intensity (AudioManager.initialize m))
     = AudioManager.updateInteraction intensity (AudioManager.initialize m)
  /\ AudioManager.nodes (AudioManager.initialize AudioManager.create)
     = Some (AudioManager.mkDrone 100 0.1 55).
Proof.
  split; [|split; [|split]].
  - unfold AudioManager.performAll. induction calls as [|c rest IH]; simpl; auto.
    now rewrite perform_create.
  - unfold AudioManager.initialize.
    destruct (AudioManager.isInitialized m) eqn:E; simpl; now rewrite ?E.
  - unfold AudioManager.initialize, AudioManager.updateInteraction.
    destruct (AudioManager.isInitialized m) eqn:E; simpl.
    + destruct (AudioManager.nodes m); simpl; now rewrite E.
    + reflexivity.
  - reflexivity.
Qed.

(** The requests of one hand update: the intensity update of the sample
    and, after it, the shape-change sound if the update commits a change. *)
Lemma onHandResults_requests c st data :
  audioManager st = true ->
  snd (onHandResults c st data)
  = updateInteraction (if detected data then pinchIntensity data else 0)
    :: match committed st (fst (onHandResults c st data)) with
       | Some _ => [playShapeChangeSound]
       | None => []
       end.
Proof.
  intros Ha. destruct st as [shape hd buf am]. simpl in Ha. subst am.
  unfold onHandResults, committed, render, audio.
  destruct (detected data); simpl.
  - destruct (findConsensus _) as [[fingers cnt]|]; simpl.
    + destruct (negb (shape_eqb (mapFingers c fingers) c)); simpl.
      * unfold changeShape, audio. simpl.
        destruct (shape_eqb shape (mapFingers c fingers)) eqn:E; simpl.
        -- now rewrite shape_eqb_refl.
        -- now rewrite E.
      * now rewrite shape_eqb_refl.
    + now rewrite shape_eqb_refl.
  - now rewrite shape_eqb_refl.
Qed.

(** X10.  Once initialised the drone follows the hand: after the requests
    of any hand update, committing a shape change or not and whatever the
    drone was before, its three targets are those of one intensity i in
    [0,1] (the pinch intensity of a detected hand, 0 without a hand):
    filter 100 + 800 i, gain 0.1 + 0.2 i, pitch 55 + 5 i.  So the filter
    stays within [100, 900], the pitch within [55, 60] and the gain at or
    above 0.1. *)
Theorem drone_follows_intensity c st data m d :
  audioManager st = true ->
  AudioManager.nodes m = Some d ->
  let i := if detected data then pinchIntensity data else 0 in
  exists d',
    AudioManager.nodes
      (AudioManager.performAll m (snd (onHandResults c st data))) = Some d'
    /\ d' = AudioManager.mkDrone (100 + i * 800) (0.1 + i * 0.2) (55 + i * 5)
    /\ 0 <= i <= 1
    /\ 100 <= AudioManager.filterFrequency d' <= 900
    /\ 0.1 <= AudioManager.gain d'
    /\ 55 <= AudioManager.oscFrequency d' <= 60.
Proof.
  intros Ha Hn i.
  assert (Hi : 0 <= i <= 1).
  { unfold i. destruct (detected data); [apply pinchIntensity_range | lra]. }
  exists (AudioManager.mkDrone (100 + i * 800) (0.1 + i * 0.2) (55 + i * 5)).
  split; [|split; [reflexivity|]].
  - rewrite (onHandResults_requests c st data Ha). fold i.
    unfold AudioManager.performAll. cbn [fold_left AudioManager.perform].
    assert (E : AudioManager.updateInteraction i m
                = AudioManager.mkManager
                    (Some (AudioManager.mkDrone (100 + i * 800) (0.1 + i * 0.2)
                                                (55 + i * 5)))
                    (AudioManager.isInitialized m) (AudioManager.whooshes m)).
    { unfold AudioManager.updateInteraction. now rewrite Hn. }
    rewrite E.
    destruct (committed st (fst (onHandResults c st data))); reflexivity.
  - split; [exact Hi|]. cbn [AudioManager.filterFrequency AudioManager.gain
                             AudioManager.oscFrequency].
    repeat split; lra.
Qed.

Lemma drone_follows_intensity_witness :
  let st := mkState FLOWER lostHand (repeat 4%nat 12%nat) true in
  let data := mkHandData 4 true 0.03 (0.5, 0.5) true in
  let m := AudioManager.initialize AudioManager.create in
  let i := if detected data then pinchIntensity data else 0 in
  exists d',
    AudioManager.nodes
      (AudioManager.performAll m (snd (onHandResults SPHERE st data))) = Some d'
    /\ d' = AudioManager.mkDrone (100 + i * 800) (0.1 + i * 0.2) (55 + i * 5)
    /\ 0 <= i <= 1
    /\ 100 <= AudioManager.filterFrequency d' <= 900
    /\ 0.1 <= AudioManager.gain d'
    /\ 55 <= AudioManager.oscFrequency d' <= 60.
Proof.
  apply (drone_follows_intensity SPHERE
           (mkState FLOWER lostHand (repeat 4%nat 12%nat) true)
           (mkHandData 4 true 0.03 (0.5, 0.5) true)
           (AudioManager.initialize AudioManager.create)
           (AudioManager.mkDrone 100 0.1 55)).
  - reflexivity.
  - reflexivity.
Defined.

(** X11.  The shape-change sound is played once for each committed change
    and never otherwise: with the audio manager set and initialised, the
    requests of a hand update start one noise burst when the update
    commits a shape change and none when it does not. *)
Theorem whoosh_per_change c st data m d :
  audioManager st = true ->
  AudioManager.nodes m = Some d ->
  AudioManager.whooshes
    (AudioManager.performAll m (snd (onHandResults c st data)))
  = match committed st (fst (onHandResults c st data)) with
    | Some _ => S (AudioManager.whooshes m)
    | None => AudioManager.whooshes m
    end.
Proof.
  intros Ha Hn.
  assert (Hu : forall q,
             AudioManager.nodes (AudioManager.updateInteraction q m) <> None
             /\ AudioManager.whooshes (AudioManager.updateInteraction q m)
                = AudioManager.whooshes m).
  { intros q. unfold AudioManager.updateInteraction. rewrite Hn.
    split; [discriminate | reflexivity]. }
  rewrite (onHandResults_requests c st data Ha).
  unfold AudioManager.performAll. cbn [fold_left AudioManager.perform].
  set (q := if detected data then pinchIntensity data else 0).
  destruct (Hu q) as [Hn' Hw].
  destruct (committed st (fst (onHandResults c st data))).
  - cbn [fold_left AudioManager.perform].
    unfold AudioManager.playShapeChangeSound.
    destruct (AudioManager.nodes (AudioManager.updateInteraction q m)) eqn:E;
      [|congruence].
    cbn [AudioManager.whooshes]. now rewrite Hw.
  - cbn [fold_left]. exact Hw.
Qed.

Lemma whoosh_per_change_witness :
  let st := mkState FLOWER lostHand (repeat 4%nat 12%nat) true in
  let m := AudioManager.initialize AudioManager.create in
  AudioManager.whooshes
    (AudioManager.performAll m (snd (onHandResults SPHERE st (sampleOf 4))))
  = match committed st (fst (onHandResults SPHERE st (sampleOf 4))) with
    | Some _ => S (AudioManager.whooshes m)
    | None => AudioManager.whooshes m
    end.
Proof.
  apply (whoosh_per_change SPHERE
           (mkState FLOWER lostHand (repeat 4%nat 12%nat) true) (sampleOf 4)
           (AudioManager.initialize AudioManager.create)
           (AudioManager.mkDrone 100 0.1 55)).
  - reflexivity.
  - reflexivity.
Defined.

(** X12.  "Close = high intensity": of two open hands, the one with the
    smaller pinch distance drives the drone at least as bright, as loud
    and as high: the three targets set by [updateInteraction] do not
    increase with the pinch distance. *)
Theorem closer_pinch_brighter a b m d :
  isPinching a = false -> isPinching b = false ->
  pinchDistance a <= pinchDistance b ->
  AudioManager.nodes m = Some d ->
  exists da db,
    AudioManager.nodes (AudioManager.updateInteraction (pinchIntensity a) m) = Some da
    /\ AudioManager.nodes (AudioManager.updateInteraction (pinchIntensity b) m) = Some db
    /\ AudioManager.filterFrequency db <= AudioManager.filterFrequency da
    /\ AudioManager.gain db <= AudioManager.gain da
    /\ AudioManager.oscFrequency db <= AudioManager.oscFrequency da.
Proof.
  intros Ha Hb Hab Hn.
  pose proof (open_hand_intensities a b Ha Hb Hab) as Hle.
  unfold AudioManager.updateInteraction. rewrite Hn.
  eexists. eexists. split; [reflexivity|]. split; [reflexivity|].
  simpl. repeat split; lra.
Qed.

Lemma closer_pinch_brighter_witness :
  let a := mkHandData 2 false 0.1 (0.5, 0.5) true in
  let b := mkHandData 2 false 0.2 (0.5, 0.5) true in
  let m := AudioManager.initialize AudioManager.create in
  exists da db,
    AudioManager.nodes (AudioManager.updateInteraction (pinchIntensity a) m) = Some da
    /\ AudioManager.nodes (AudioManager.updateInteraction (pinchIntensity b) m) = Some db
    /\ AudioManager.filterFrequency db <= AudioManager.filterFrequency da
    /\ AudioManager.gain db <= AudioManager.gain da
    /\ AudioManager.oscFrequency db <= AudioManager.oscFrequency da.
Proof.
  apply (closer_pinch_brighter
           (mkHandData 2 false 0.1 (0.5, 0.5) true)
           (mkHandData 2 false 0.2 (0.5, 0.5) true)
           (AudioManager.initialize AudioManager.create)
           (AudioManager.mkDrone 100 0.1 55)).
  - reflexivity.
  - reflexivity.
  - vm_compute. discriminate.
  - reflexivity.
Defined.

End Audio.

(** * The interaction point in both modes *)

Section Pointer.

Import Nebula3D.
Local Open Scope R_scope.

(** X13.  In mouse mode a pointer inside the window is normalised into
    [-1, 1] x [-1, 1], the centre of the window to (0, 0) and the top
    left corner to (-1, 1); in camera mode pointer moves and button
    presses leave the mouse state as it is. *)
Theorem handleMouseMove_normalised clientX clientY innerWidth innerHeight old down :
  0 < innerWidth -> 0 < innerHeight ->
  0 <= clientX <= innerWidth -> 0 <= clientY <= innerHeight ->
  let m := handleMouseMove mouse clientX clientY innerWidth innerHeight old in
  -1 <= fst m <= 1 /\ -1 <= snd m <= 1
  /\ handleMouseMove mouse (innerWidth / 2) (innerHeight / 2)
       innerWidth innerHeight old = (0, 0)
  /\ handleMouseMove mouse 0 0 innerWidth innerHeight old = (-1, 1)
  /\ handleMouseMove camera clientX clientY innerWidth innerHeight old = old
  /\ handleMouseDown camera down = down
  /\ handleMouseUp camera down = down.
Proof.
  intros HW HH HX HY. cbv zeta. unfold handleMouseMove. cbn [fst snd].
  assert (0 <= clientX / innerWidth <= 1).
  { split.
    - apply Rmult_le_pos; [lra|]. left. now apply Rinv_0_lt_compat.
    - apply (Rmult_le_reg_r innerWidth); [lra|].
      unfold Rdiv. rewrite Rmult_assoc, Rinv_l by lra. lra. }
  assert (0 <= clientY / innerHeight <= 1).
  { split.
    - apply Rmult_le_pos; [lra|]. left. now apply Rinv_0_lt_compat.
    - apply (Rmult_le_reg_r innerHeight); [lra|].
      unfold Rdiv. rewrite Rmult_assoc, Rinv_l by lra. lra. }
  split; [lra|]. split; [lra|]. split; [|split].
  - f_equal; field; lra.
  - f_equal; field; lra.
  - repeat split.
Qed.

Lemma handleMouseMove_normalised_witness :
  let m := handleMouseMove mouse 480 270 1920 1080 (0, 0) in
  -1 <= fst m <= 1 /\ -1 <= snd m <= 1
  /\ handleMouseMove mouse (1920 / 2) (1080 / 2) 1920 1080 (0, 0) = (0, 0)
  /\ handleMouseMove mouse 0 0 1920 1080 (0, 0) = (-1, 1)
  /\ handleMouseMove camera 480 270 1920 1080 (0, 0) = (0, 0)
  /\ handleMouseDown camera false = false
  /\ handleMouseUp camera false = false.
Proof.
  apply (handleMouseMove_normalised 480 270 1920 1080 (0, 0) false); lra.
Defined.

(** The pointer at depth 0.5, unprojected into camera space. *)
Lemma unproject_camera_space cam mx my :
  properCamera cam ->
  let T := tan (PI / 180 * 0.5 * fov cam) in
  let z0 := 4 * far cam * near cam / (far cam + 3 * near cam) in
  applyMatrix4 (vec3 mx my 0.5) (projectionMatrixInverse cam)
  = vec3 (mx * (aspect cam * T) * z0) (my * T * z0) (- z0).
Proof.
  intros Hc T z0. pose proof Hc as [Hf [Ha Hn]].
  pose proof (half_fov_tan cam Hf) as HT.
  unfold projectionMatrixInverse. rewrite (projectionMatrix_eq cam Hc). cbv zeta.
  fold T in HT |- *.
  assert (Hx : 1 / (aspect cam * T) <> 0).
  { apply Rgt_not_eq. apply Rdiv_lt_0_compat; [lra|]. apply Rmult_lt_0_compat; lra. }
  assert (Hy : 1 / T <> 0).
  { apply Rgt_not_eq. apply Rdiv_lt_0_compat; lra. }
  assert (Hd : - 2 * far cam * near cam / (far cam - near cam) <> 0).
  { apply Rlt_not_eq.
    assert (0 < 2 * far cam * near cam / (far cam - near cam)).
    { apply Rdiv_lt_0_compat; [|lra].
      apply Rmult_lt_0_compat; [|lra]. lra. }
    lra. }
  rewrite (invert_perspective _ _ _ _ Hx Hy Hd).
  unfold applyMatrix4, z0.
  cbn [n11 n12 n13 n14 n21 n22 n23 n24 n31 n32 n33 n34 n41 n42 n43 n44 vx vy vz].
  replace 0.5 with (/ 2) by lra.
  apply vec3_eq; field; lra.
Qed.

(** A ray from (0, 0, D) through a point in front of the camera meets
    the plane z = 0 where similar triangles say. *)
Lemma ray_meets_plane (v1 v2 z0 D : R) :
  0 < z0 ->
  let dir := normalize (vec3 v1 v2 (- z0)) in
  let dist := - D / vz dir in
  add (vec3 0 0 D) (multiplyScalar dir dist)
  = vec3 (v1 * D / z0) (v2 * D / z0) 0.
Proof.
  intros Hz. cbv zeta. unfold normalize, length. cbn [vx vy vz].
  set (L := sqrt (v1 * v1 + v2 * v2 + - z0 * - z0)).
  assert (HL : 0 < L).
  { unfold L. apply sqrt_lt_R0.
    pose proof (Rle_0_sqr v1) as H1. pose proof (Rle_0_sqr v2) as H2.
    unfold Rsqr in H1, H2.
    assert (0 < z0 * z0) by (apply Rmult_lt_0_compat; lra).
    replace (- z0 * - z0) with (z0 * z0) by ring. lra. }
  destruct (Req_dec_T L 0) as [E|_]; [lra|].
  unfold add, multiplyScalar. cbn [vx vy vz].
  apply vec3_eq; field; lra.
Qed.

Lemma pointer_point cam D hand mx my down :
  properCamera cam ->
  position cam = vec3 0 0 D ->
  matrixWorld cam = makeTranslation (position cam) ->
  let T := tan (PI / 180 * 0.5 * fov cam) in
  interactionPoint mouse cam hand (mx, my) down
  = mkInteraction (mx * (aspect cam * T) * D) (my * T * D) 30 true down.
Proof.
  intros Hc Hp Hw T. pose proof Hc as [Hf [Ha Hn]].
  unfold interactionPoint. cbn [fst snd].
  unfold unproject. rewrite (unproject_camera_space cam mx my Hc). cbv zeta.
  fold T.
  set (z0 := 4 * far cam * near cam / (far cam + 3 * near cam)).
  assert (Hz : 0 < z0).
  { unfold z0. apply Rdiv_lt_0_compat; [|lra].
    apply Rmult_lt_0_compat; [|lra]. lra. }
  rewrite Hw, Hp.
  unfold applyMatrix4, makeTranslation, sub.
  cbn [n11 n12 n13 n14 n21 n22 n23 n24 n31 n32 n33 n34 n41 n42 n43 n44 vx vy vz].
  set (v1 := mx * (aspect cam * T) * z0). set (v2 := my * T * z0).
  replace ((1 * v1 + 0 * v2 + 0 * - z0 + 0) * (1 / (0 * v1 + 0 * v2 + 0 * - z0 + 1)) - 0)
    with v1 by (field; lra).
  replace ((0 * v1 + 1 * v2 + 0 * - z0 + 0) * (1 / (0 * v1 + 0 * v2 + 0 * - z0 + 1)) - 0)
    with v2 by (field; lra).
  replace ((0 * v1 + 0 * v2 + 1 * - z0 + D) * (1 / (0 * v1 + 0 * v2 + 0 * - z0 + 1)) - D)
    with (- z0) by (field; lra).
  pose proof (ray_meets_plane v1 v2 z0 D Hz) as Hray. cbv zeta in Hray.
  rewrite Hray. cbn [vx vy].
  unfold v1, v2. f_equal; field; lra.
Qed.

(** X14.  In pointer mode, with a camera of proper frustum at (0, 0, D)
    looking along -z, the interaction point of normalised pointer
    coordinates (mx, my) is (mx * aspect * tan(fov/2) * D,
    my * tan(fov/2) * D, 30): the unprojected ray meets the plane z = 0
    there, and near and far play no part.  So a pointer at pixel
    (clientX, clientY) of a window of positive size is carried to
    ((2 clientX / innerWidth - 1) * aspect * tan(fov/2) * D,
     (1 - 2 clientY / innerHeight) * tan(fov/2) * D, 30). *)
Theorem pointer_world_point cam D hand mx my down :
  properCamera cam ->
  position cam = vec3 0 0 D ->
  matrixWorld cam = makeTranslation (position cam) ->
  let T := tan (PI / 180 * 0.5 * fov cam) in
  interactionPoint mouse cam hand (mx, my) down
  = mkInteraction (mx * (aspect cam * T) * D) (my * T * D) 30 true down
  /\ forall clientX clientY innerWidth innerHeight old,
       0 < innerWidth -> 0 < innerHeight ->
       interactionPoint mouse cam hand
         (handleMouseMove mouse clientX clientY innerWidth innerHeight old) down
       = mkInteraction
           ((2 * clientX / innerWidth - 1) * (aspect cam * T) * D)
           ((1 - 2 * clientY / innerHeight) * T * D) 30 true down.
Proof.
  intros Hc Hp Hw T. split.
  - now apply pointer_point.
  - intros clientX clientY innerWidth innerHeight old HW HH.
    unfold handleMouseMove.
    rewrite (pointer_point cam D hand _ _ down Hc Hp Hw). cbv zeta. fold T.
    f_equal; unfold Rdiv; ring.
Qed.

Lemma pointer_world_point_witness :
  let cam := sceneCamera (16 / 9) in
  let T := tan (PI / 180 * 0.5 * fov cam) in
  interactionPoint mouse cam App.lostHand (1, -1) true
  = mkInteraction (1 * (aspect cam * T) * 80) (-1 * T * 80) 30 true true
  /\ forall clientX clientY innerWidth innerHeight old,
       0 < innerWidth -> 0 < innerHeight ->
       interactionPoint mouse cam App.lostHand
         (handleMouseMove mouse clientX clientY innerWidth innerHeight old) true
       = mkInteraction
           ((2 * clientX / innerWidth - 1) * (aspect cam * T) * 80)
           ((1 - 2 * clientY / innerHeight) * T * 80) 30 true true.
Proof.
  apply (pointer_world_point (sceneCamera (16 / 9)) 80 App.lostHand 1 (-1) true).
  - unfold properCamera, sceneCamera. cbn [fov aspect near far]. lra.
  - reflexivity.
  - reflexivity.
Defined.

(** X15.  Hand mode and pointer mode place the interaction point alike:
    a detected hand at normalised position (hx, hy) gives the point the
    pointer gives at (2 hx - 1, 1 - 2 hy), with the pinch in the role of
    the mouse button; and a hand inside the image gives a point inside
    the visible rectangle of the plane z = 0. *)
Theorem hand_matches_pointer cam D hand down :
  properCamera cam ->
  position cam = vec3 0 0 D ->
  matrixWorld cam = makeTranslation (position cam) ->
  detected hand = true ->
  let hx := Q2R (fst (handPosition hand)) in
  let hy := Q2R (snd (handPosition hand)) in
  let visibleHeight := 2 * tan ((fov cam * PI / 180) / 2) * D in
  let it := interactionPoint camera cam hand (0, 0) down in
  it = interactionPoint mouse cam hand (2 * hx - 1, 1 - 2 * hy) (isPinching hand)
  /\ (0 <= D -> 0 <= hx <= 1 -> 0 <= hy <= 1 ->
      Rabs (ix it) <= visibleHeight * aspect cam / 2 /\
      Rabs (iy it) <= visibleHeight / 2).
Proof.
  intros Hc Hp Hw Hd. cbv zeta. pose proof Hc as [Hf [Ha Hn]].
  rewrite (pointer_point cam D hand _ _ _ Hc Hp Hw). cbv zeta.
  unfold interactionPoint. rewrite Hd, Hp. cbn [vz ix iy].
  replace (fov cam * PI / 180 / 2) with (PI / 180 * 0.5 * fov cam) by lra.
  pose proof (half_fov_tan cam Hf) as HT.
  set (T := tan (PI / 180 * 0.5 * fov cam)) in *.
  set (hx := Q2R (fst (handPosition hand))).
  set (hy := Q2R (snd (handPosition hand))).
  split.
  - f_equal; lra.
  - intros HD Hx Hy.
    assert (HTD : 0 <= T * D) by (apply Rmult_le_pos; lra).
    assert (HTDa : 0 <= T * D * aspect cam) by (apply Rmult_le_pos; lra).
    split; apply Rabs_bound.
    + assert (- (1) <= 2 * hx - 1 <= 1) by lra.
      replace ((hx - 0.5) * (2 * T * D * aspect cam))
        with ((2 * hx - 1) * (T * D * aspect cam)) by lra.
      replace (2 * T * D * aspect cam / 2) with (T * D * aspect cam) by lra.
      set (w := T * D * aspect cam) in *. set (u := 2 * hx - 1) in *.
      clearbody w u. split; nra.
    + replace (- (hy - 0.5) * (2 * T * D)) with ((1 - 2 * hy) * (T * D)) by lra.
      replace (2 * T * D / 2) with (T * D) by lra.
      assert (- (1) <= 1 - 2 * hy <= 1) by lra.
      set (w := T * D) in *. set (u := 1 - 2 * hy) in *.
      clearbody w u. split; nra.
Qed.

Lemma hand_matches_pointer_witness :
  let cam := sceneCamera (16 / 9) in
  let hand := mkHandData 2 true 0.01%Q (0.25%Q, 0.75%Q) true in
  let hx := Q2R (fst (handPosition hand)) in
  let hy := Q2R (snd (handPosition hand)) in
  let visibleHeight := 2 * tan ((fov cam * PI / 180) / 2) * 80 in
  let it := interactionPoint camera cam hand (0, 0) false in
  it = interactionPoint mouse cam hand (2 * hx - 1, 1 - 2 * hy) (isPinching hand)
  /\ (0 <= 80 -> 0 <= hx <= 1 -> 0 <= hy <= 1 ->
      Rabs (ix it) <= visibleHeight * aspect cam / 2 /\
      Rabs (iy it) <= visibleHeight / 2).
Proof.
  apply (hand_matches_pointer (sceneCamera (16 / 9)) 80
           (mkHandData 2 true 0.01%Q (0.25%Q, 0.75%Q) true) false).
  - unfold properCamera, sceneCamera. cbn [fov aspect near far]. lra.
  - reflexivity.
  - reflexivity.
  - reflexivity.
Defined.

End Pointer.

(** * Frames of the particle loop *)

Section Frames.

Import Nebula3D.
Local Open Scope R_scope.

Lemma updateFrom_length it time : forall target positions i s,
  List.length (fst (updateFrom it time i target positions s))
  = Nat.min (List.length target) (List.length positions).
Proof.
  induction target as [|t ts IH]; intros positions i s; simpl; auto.
  destruct positions as [|p ps]; simpl; auto.
  unfold bind at 1. destruct (updateParticle it time i t p s) as [p' s1].
  unfold bind at 1. specialize (IH ps (S i) s1).
  destruct (updateFrom it time (S i) ts ps s1) as [ps' s2]. simpl in *.
  now rewrite IH.
Qed.

(** X16.  A frame never resizes the position array and moves each
    particle on its own: with target and position arrays of the same
    length the new array has that length, and its entry k is the update
    of particle k from its own target and position, on a stream of draws
    in [0,1). *)
Theorem animate_keeps_particles mode cam hand mouseRef down time target positions s :
  List.length target = List.length positions ->
  unitDraws s ->
  let it := interactionPoint mode cam hand mouseRef down in
  let positions' := fst (animate mode cam hand mouseRef down time target positions s) in
  List.length positions' = List.length positions
  /\ forall k t p,
       nth_error target k = Some t -> nth_error positions k = Some p ->
       exists s', unitDraws s' /\
         nth_error positions' k = Some (fst (updateParticle it time k t p s')).
Proof.
  intros Hlen Hs. cbv zeta. unfold animate. split.
  - rewrite updateFrom_length, Hlen. apply Nat.min_id.
  - intros k t p Ht Hp.
    destruct (updateFrom_nth (interactionPoint mode cam hand mouseRef down)
                time target positions 0 s k t p Hs Ht Hp) as [s' [Hs' Hn]].
    exists s'. split; auto.
Qed.

Lemma animate_keeps_particles_witness :
  let target := [vec3 25 0 0; vec3 0 25 0] in
  let positions := [vec3 1 2 3; nearby] in
  let s : RandomSource := fun _ => 0 in
  let it := interactionPoint camera (sceneCamera 1) App.lostHand (0, 0) false in
  let positions' :=
    fst (animate camera (sceneCamera 1) App.lostHand (0, 0) false 0
           target positions s) in
  List.length positions' = List.length positions
  /\ forall k t p,
       nth_error target k = Some t -> nth_error positions k = Some p ->
       exists s', unitDraws s' /\
         nth_error positions' k = Some (fst (updateParticle it 0 k t p s')).
Proof.
  apply (animate_keeps_particles camera (sceneCamera 1) App.lostHand (0, 0)
           false 0 [vec3 25 0 0; vec3 0 25 0] [vec3 1 2 3; nearby]
           (fun _ => 0)).
  - reflexivity.
  - intros n. lra.
Defined.

Lemma updateFrom_inactive it time : forall target positions i s,
  isActive it = false ->
  snd (updateFrom it time i target positions s) = s
  /\ forall k t p,
       nth_error target k = Some t -> nth_error positions k = Some p ->
       nth_error (fst (updateFrom it time i target positions s)) k
       = Some (vec3 (vx p + (vx (drifted time (i + k) t) - vx p) * lerpFactor)
                    (vy p + (vy (drifted time (i + k) t) - vy p) * lerpFactor)
                    (vz p + (vz (drifted time (i + k) t) - vz p) * lerpFactor)).
Proof.
  intros target positions i s Hin. revert positions i.
  induction target as [|t0 ts IH]; intros positions i.
  - simpl. split; auto. intros k t p Ht. destruct k; discriminate.
  - destruct positions as [|p0 ps].
    + simpl. split; auto. intros k t p _ Hp. destruct k; discriminate.
    + assert (E : updateParticle it time i t0 p0 s
                  = (vec3 (vx p0 + (vx (drifted time i t0) - vx p0) * lerpFactor)
                          (vy p0 + (vy (drifted time i t0) - vy p0) * lerpFactor)
                          (vz p0 + (vz (drifted time i t0) - vz p0) * lerpFactor), s)).
      { rewrite updateParticle_eq, effectiveTarget_cases, Hin. reflexivity. }
      assert (Estep : updateFrom it time i (t0 :: ts) (p0 :: ps) s
                      = (fst (updateParticle it time i t0 p0 s)
                           :: fst (updateFrom it time (S i) ts ps s),
                         snd (updateFrom it time (S i) ts ps s))).
      { cbn [updateFrom]. unfold bind. rewrite E.
        destruct (updateFrom it time (S i) ts ps s). reflexivity. }
      rewrite Estep, E. cbn [fst snd].
      destruct (IH ps (S i)) as [IHs IHn].
      split; auto. intros k t p Ht Hp. destruct k as [|k]; cbn [nth_error] in *.
      * inversion Ht; inversion Hp; subst. now rewrite Nat.add_0_r.
      * rewrite (IHn k t p Ht Hp). now rewrite Nat.add_succ_r.
Qed.

(** X17.  In camera mode with no hand detected the frame is the plain
    morph: no random draw is consumed and every particle moves 0.05 of
    the way to its drifted shape target, whatever the mouse state and the
    camera. *)
Theorem animate_without_hand cam hand mouseRef down time target positions s :
  detected hand = false ->
  snd (animate camera cam hand mouseRef down time target positions s) = s
  /\ forall k t p,
       nth_error target k = Some t -> nth_error positions k = Some p ->
       nth_error (fst (animate camera cam hand mouseRef down time target positions s)) k
       = Some (vec3 (vx p + (vx (drifted time k t) - vx p) * 0.05)
                    (vy p + (vy (drifted time k t) - vy p) * 0.05)
                    (vz p + (vz (drifted time k t) - vz p) * 0.05)).
Proof.
  intros Hd. unfold animate, interactionPoint. rewrite Hd.
  apply (updateFrom_inactive (mkInteraction 0 0 30 false false) time
           target positions 0 s eq_refl).
Qed.

Lemma animate_without_hand_witness :
  let target := [vec3 25 0 0] in
  let positions := [nearby] in
  let s : RandomSource := fun _ => 0 in
  snd (animate camera (sceneCamera 1) App.lostHand (0, 0) true 0 target positions s) = s
  /\ forall k t p,
       nth_error target k = Some t -> nth_error positions k = Some p ->
       nth_error (fst (animate camera (sceneCamera 1) App.lostHand (0, 0) true 0
                         target positions s)) k
       = Some (vec3 (vx p + (vx (drifted 0 k t) - vx p) * 0.05)
                    (vy p + (vy (drifted 0 k t) - vy p) * 0.05)
                    (vz p + (vz (drifted 0 k t) - vz p) * 0.05)).
Proof.
  apply (animate_without_hand (sceneCamera 1) App.lostHand (0, 0) true 0
           [vec3 25 0 0] [nearby] (fun _ => 0)).
  reflexivity.
Defined.

(** *** The cloud stays in a box *)

(** The repulsion offset on one axis is at most 12.5. *)
Lemma repel_offset_bound (a d : R) :
  - d <= a <= d -> d < 25 ->
  - 12.5 <= a * ((25 - d) / 25) * 2 <= 12.5.
Proof.
  intros Ha Hd.
  assert (Hd0 : 0 <= d) by lra.
  set (f := (25 - d) / 25).
  assert (Hf : 0 <= f) by (unfold f; lra).
  assert (H1 : a * f <= d * f) by (apply Rmult_le_compat_r; lra).
  assert (H2 : - d * f <= a * f).
  { replace (- d * f) with (- (d * f)) by ring.
    assert (- a * f <= d * f) by (apply Rmult_le_compat_r; lra). lra. }
  assert (H3 : d * f = (25 * d - d * d) / 25) by (unfold f; field).
  pose proof (Rle_0_sqr (d - 12.5)) as H4. unfold Rsqr in H4.
  lra.
Qed.

Lemma effectiveTarget_inBox it time i target pos s T J B :
  inBox T target -> inBox J (point it) -> unitDraws s ->
  T + 13 <= B -> J + 2.5 <= B ->
  inBox B (fst (effectiveTarget it time i target pos s)).
Proof.
  intros [Tx [Ty Tz]] [Jx [Jy Jz]] Hs HT HJ.
  apply Rabs_bound_inv in Tx, Ty, Tz, Jx, Jy, Jz.
  unfold point in Jx, Jy, Jz. cbn [vx vy vz] in Jx, Jy, Jz.
  pose proof (SIN_bound (time * 2 + INR i)) as Hsin.
  pose proof (COS_bound (time * 1.5 + INR i)) as Hcos.
  assert (Hdrift : inBox B (drifted time i target)).
  { unfold inBox, drifted. cbn [vx vy vz]. repeat split; apply Rabs_bound; lra. }
  rewrite effectiveTarget_cases.
  destruct (isActive it); [|exact Hdrift].
  destruct (isAttracting it).
  - destruct (Rlt_dec _ 40); [|exact Hdrift].
    pose proof (Hs 0%nat). pose proof (Hs 1%nat). pose proof (Hs 2%nat).
    unfold inBox. cbn [fst vx vy vz]. repeat split; apply Rabs_bound; lra.
  - destruct (Rlt_dec (distance (point it) pos) 25) as [Hd|]; [|exact Hdrift].
    destruct (axis_le_distance (point it) pos) as [Dx [Dy Dz]].
    apply Rabs_bound_inv in Dx, Dy, Dz.
    set (d := distance (point it) pos) in *.
    unfold point in Dx, Dy, Dz. cbn [vx vy vz] in Dx, Dy, Dz.
    assert (Ax : - d <= ix it - vx pos <= d) by lra.
    assert (Ay : - d <= iy it - vy pos <= d) by lra.
    assert (Az : - d <= iz it - vz pos <= d) by lra.
    pose proof (repel_offset_bound _ d Ax Hd).
    pose proof (repel_offset_bound _ d Ay Hd).
    pose proof (repel_offset_bound _ d Az Hd).
    unfold inBox, drifted. cbn [fst vx vy vz].
    repeat split; apply Rabs_bound; lra.
Qed.

Lemma updateParticle_inBox it time i target pos s T J B :
  inBox T target -> inBox J (point it) -> unitDraws s ->
  T + 13 <= B -> J + 2.5 <= B ->
  inBox B pos ->
  inBox B (fst (updateParticle it time i target pos s)).
Proof.
  intros HT HJ Hs HB1 HB2 [Px [Py Pz]].
  pose proof (effectiveTarget_inBox it time i target pos s T J B HT HJ Hs HB1 HB2)
    as [Ex [Ey Ez]].
  rewrite updateParticle_eq. cbv zeta. unfold inBox, lerpFactor. cbn [fst vx vy vz].
  apply Rabs_bound_inv in Px, Py, Pz, Ex, Ey, Ez.
  repeat split; apply Rabs_bound; lra.
Qed.

Lemma afterFrames_inBox it time draws i target pos T J B :
  inBox T target -> inBox J (point it) ->
  (forall k, unitDraws (draws k)) ->
  T + 13 <= B -> J + 2.5 <= B ->
  inBox B pos ->
  forall n, inBox B (afterFrames it time draws i target n pos).
Proof.
  intros HT HJ Hs HB1 HB2 Hp. induction n as [|n IH]; simpl; auto.
  apply (updateParticle_inBox it (time n) i target _ (draws n) T J B); auto.
Qed.

(** X18.  The cloud cannot run away.  If the shape target of a particle
    lies within T of the origin on every axis and the interaction point
    within J, then in any box of half-width B with B >= T + 13 and
    B >= J + 2.5 a particle that is inside stays inside: after one frame,
    whatever the interaction does (nothing, attraction, repulsion) and
    whatever the draws, and so after any number of frames. *)
Theorem particle_stays_in_box it time draws i target pos T J B :
  inBox T target -> inBox J (point it) ->
  (forall k, unitDraws (draws k)) ->
  T + 13 <= B -> J + 2.5 <= B ->
  inBox B pos ->
  forall n, inBox B (afterFrames it time draws i target n pos).
Proof.
  intros HT HJ Hs HB1 HB2 Hp. induction n as [|n IH]; [exact Hp|].
  cbn [afterFrames].
  apply (updateParticle_inBox it (time n) i target _ (draws n) T J B); auto.
Qed.

Lemma particle_stays_in_box_witness :
  inBox 64 (afterFrames (pointOnAxis false) (fun k => INR k / 60)
              (fun _ _ => 0) 7 (vec3 25 0 0) 600 nearby).
Proof.
  refine (particle_stays_in_box (pointOnAxis false) (fun k => INR k / 60)
            (fun _ _ => 0) 7 (vec3 25 0 0) nearby 51 30 64 _ _ _ _ _ _ 600%nat).
  - unfold inBox. cbn [vx vy vz]. repeat split; apply Rabs_bound; lra.
  - unfold inBox, point, pointOnAxis. cbn [vx vy vz ix iy iz].
    repeat split; apply Rabs_bound; lra.
  - intros k n. lra.
  - lra.
  - lra.
  - unfold inBox, nearby. cbn [vx vy vz]. repeat split; apply Rabs_bound; lra.
Defined.

End Frames.

(** * The five shapes and the initial cloud *)

Section Shapes.

Import Nebula3D.
Local Open Scope R_scope.

Lemma product_between (a b la ha lb hb : R) :
  0 <= la -> 0 <= lb -> la <= a <= ha -> lb <= b <= hb ->
  la * lb <= a * b <= ha * hb.
Proof.
  intros Hla Hlb Ha Hb. split.
  - apply Rmult_le_compat; lra.
  - apply Rmult_le_compat; lra.
Qed.

Lemma scaled_by_unit (r c : R) : 0 <= r -> -1 <= c <= 1 -> - r <= r * c <= r.
Proof. intros Hr Hc. nra. Qed.

Lemma cube_unit (x : R) : -1 <= x <= 1 -> -1 <= x ^ 3 <= 1.
Proof. intros H. simpl. nra. Qed.

Lemma axis_within_radius (x y z r : R) :
  0 <= r -> x * x + y * y + z * z = r * r ->
  (- r <= x <= r) /\ (- r <= y <= r) /\ (- r <= z <= r).
Proof. intros Hr H. repeat split; nra. Qed.

Lemma atRadius_inBox lo hi p : 0 <= lo -> atRadius lo hi p -> inBox hi p.
Proof.
  intros Hlo [r [Hr Hsq]].
  destruct (axis_within_radius _ _ _ r ltac:(lra) Hsq) as [Hx [Hy Hz]].
  unfold inBox. repeat split; apply Rabs_bound; lra.
Qed.

Lemma sqrt_between (lo hi x : R) :
  0 <= lo -> lo * lo <= x <= hi * hi -> 0 <= hi ->
  lo <= sqrt x <= hi /\ sqrt x * sqrt x = x.
Proof.
  intros Hlo [H1 H2] Hhi.
  assert (Hx : 0 <= x).
  { pose proof (Rle_0_sqr lo) as H. unfold Rsqr in H. lra. }
  split; [|now apply sqrt_sqrt]. split.
  - rewrite <- (sqrt_square lo) at 1 by assumption. now apply sqrt_le_1_alt.
  - rewrite <- (sqrt_square hi) by assumption. now apply sqrt_le_1_alt.
Qed.

(** The tilt of Saturn is a rotation about the x-axis. *)
Lemma tilt_preserves (y z a : R) :
  (y * cos a - z * sin a) * (y * cos a - z * sin a)
  + (y * sin a + z * cos a) * (y * sin a + z * cos a)
  = y * y + z * z.
Proof.
  pose proof (sin2_cos2 a) as H. unfold Rsqr in H.
  replace ((y * cos a - z * sin a) * (y * cos a - z * sin a)
           + (y * sin a + z * cos a) * (y * sin a + z * cos a))
    with ((y * y + z * z) * (sin a * sin a + cos a * cos a)) by ring.
  rewrite H. ring.
Qed.

(** X19.  A Flower target lies on the rose curve between radius 12 and
    42 around the z-axis and within 5 of the plane z = 0: in the plane it
    is (r cos theta, r sin theta) with r in [12, 42], r being at least
    0.8 and less than 1.2 times 15 + 20 |cos(4 theta)|; this for each of
    the 15000 points and every stream of draws. *)
Theorem flower_targets s :
  unitDraws s ->
  let petals p :=
    exists r theta,
      12 <= r <= 42
      /\ 0.8 * (15 + Rabs (cos (4 * theta)) * 20) <= r
         < 1.2 * (15 + Rabs (cos (4 * theta)) * 20)
      /\ vx p = r * cos theta /\ vy p = r * sin theta
      /\ vx p * vx p + vy p * vy p = r * r
      /\ -5 <= vz p < 5 in
  Forall petals (fst (calculateTargetPositions FLOWER s))
  /\ List.length (fst (calculateTargetPositions FLOWER s)) = PARTICLE_COUNT.
Proof.
  intros Hs petals. unfold calculateTargetPositions.
  apply (fillTargets_Forall FLOWER petals 3); [|exact Hs].
  clear s Hs. intros s Hs. split; [|reflexivity].
  pose proof (Hs 0%nat) as H0. pose proof (Hs 1%nat) as H1. pose proof (Hs 2%nat) as H2.
  unfold petals.
  exists ((15 + Rabs (cos (4 * (s 0%nat * PI * 2))) * 20) * (0.8 + s 1%nat * 0.4)).
  exists (s 0%nat * PI * 2).
  pose proof (COS_bound (4 * (s 0%nat * PI * 2))) as Hc.
  assert (Ha : 0 <= Rabs (cos (4 * (s 0%nat * PI * 2))) <= 1).
  { split; [apply Rabs_pos | apply Rabs_bound; lra]. }
  set (A := 15 + Rabs (cos (4 * (s 0%nat * PI * 2))) * 20) in *.
  set (u := s 1%nat) in *.
  assert (HA : 15 <= A <= 35) by (unfold A; lra).
  pose proof (product_between A (0.8 + u * 0.4) 15 35 0.8 1.2
                ltac:(lra) ltac:(lra) HA ltac:(lra)) as Hr.
  assert (Hlo : 0.8 * A <= A * (0.8 + u * 0.4)).
  { replace (0.8 * A) with (A * 0.8) by ring. apply Rmult_le_compat_l; lra. }
  assert (Hhi : A * (0.8 + u * 0.4) < 1.2 * A).
  { replace (1.2 * A) with (A * 1.2) by ring. apply Rmult_lt_compat_l; lra. }
  cbn [shapePoint bind ret Math_random fst vx vy vz].
  fold A. fold u.
  split; [lra|]. split; [lra|]. split; [reflexivity|]. split; [reflexivity|].
  split; [|lra].
  pose proof (sin2_cos2 (s 0%nat * PI * 2)) as Hsc. unfold Rsqr in Hsc.
  set (r := A * (0.8 + u * 0.4)). set (th := s 0%nat * PI * 2) in *.
  replace (r * cos th * (r * cos th) + r * sin th * (r * sin th))
    with (r * r * (sin th * sin th + cos th * cos th)) by ring.
  rewrite Hsc. ring.
Qed.

Lemma flower_targets_witness :
  let s : RandomSource := fun _ => / 2 in
  let petals p :=
    exists r theta,
      12 <= r <= 42
      /\ 0.8 * (15 + Rabs (cos (4 * theta)) * 20) <= r
         < 1.2 * (15 + Rabs (cos (4 * theta)) * 20)
      /\ vx p = r * cos theta /\ vy p = r * sin theta
      /\ vx p * vx p + vy p * vy p = r * r
      /\ -5 <= vz p < 5 in
  Forall petals (fst (calculateTargetPositions FLOWER s))
  /\ List.length (fst (calculateTargetPositions FLOWER s)) = PARTICLE_COUNT.
Proof.
  apply (flower_targets (fun _ => / 2)).
  intros n. lra.
Defined.

(** One Saturn point: a first draw chooses ring or planet, three more
    place it, and the tilt keeps its distance from the origin. *)
Lemma shapePoint_SATURN s :
  unitDraws s ->
  let p := fst (shapePoint SATURN s) in
  (s 0%nat > 0.3 -> atRadius 35 51 p)
  /\ (~ s 0%nat > 0.3 -> atRadius 12 13 p)
  /\ snd (shapePoint SATURN s) = drop 4 s.
Proof.
  intros Hs. cbv zeta.
  pose proof (Hs 1%nat) as H1. pose proof (Hs 2%nat) as H2. pose proof (Hs 3%nat) as H3.
  unfold shapePoint. cbn [bind Math_random]. 
  destruct (Rgt_dec (s 0%nat) 0.3) as [Hring | Hplanet].
  - cbn [bind ret Math_random fst snd vx vy vz].
    split; [|split; [intros; contradiction | reflexivity]].
    intros _. unfold atRadius. cbn [vx vy vz].
    set (dist := 35 + s 2%nat * 15). set (angle := s 1%nat * PI * 2).
    set (y0 := (s 3%nat - 0.5) * 2).
    assert (Hd : 35 <= dist < 50) by (unfold dist; lra).
    assert (Hy : -1 <= y0 < 1) by (unfold y0; lra).
    assert (Hd2 : 35 * 35 <= dist * dist <= 50 * 50).
    { split; apply Rmult_le_compat; lra. }
    assert (Hy2 : 0 <= y0 * y0 <= 1).
    { split; [pose proof (Rle_0_sqr y0) as H; unfold Rsqr in H; lra|].
      assert (0 <= (1 - y0) * (1 + y0)) by (apply Rmult_le_pos; lra). lra. }
    destruct (sqrt_between 35 51 (dist * dist + y0 * y0))
      as [Hr Hsq]; try lra.
    exists (sqrt (dist * dist + y0 * y0)). split; [exact Hr|].
    rewrite Hsq, Rplus_assoc, tilt_preserves.
    pose proof (sin2_cos2 angle) as Hsc. unfold Rsqr in Hsc.
    replace (dist * cos angle * (dist * cos angle)
             + (y0 * y0 + dist * sin angle * (dist * sin angle)))
      with (dist * dist * (sin angle * sin angle + cos angle * cos angle)
            + y0 * y0) by ring.
    rewrite Hsc. ring.
  - cbn [bind ret Math_random fst snd vx vy vz].
    split; [intros; contradiction|]. split; [|reflexivity].
    intros _. unfold atRadius. cbn [vx vy vz].
    exists (12 + s 1%nat * 1). split; [lra|].
    rewrite Rplus_assoc, tilt_preserves, <- Rplus_assoc.
    apply spherical_radius.
Qed.

(** X20.  Every Saturn target lies either on the planet, at distance 12
    to 13 from the origin, or on the ring, at distance 35 to 51: the
    tilt keeps the distances, and no point falls in the gap between
    planet and ring. *)
Theorem saturn_targets s :
  unitDraws s ->
  Forall (fun p => atRadius 12 13 p \/ atRadius 35 51 p)
         (fst (calculateTargetPositions SATURN s))
  /\ List.length (fst (calculateTargetPositions SATURN s)) = PARTICLE_COUNT.
Proof.
  intros Hs. unfold calculateTargetPositions.
  apply (fillTargets_Forall SATURN _ 4); [|exact Hs].
  clear s Hs. intros s Hs.
  destruct (shapePoint_SATURN s Hs) as [Hring [Hplanet Hdrop]].
  split; [|exact Hdrop].
  destruct (Rgt_dec (s 0%nat) 0.3); [right | left]; auto.
Qed.

Lemma saturn_targets_witness :
  let s : RandomSource := fun _ => / 2 in
  Forall (fun p => atRadius 12 13 p \/ atRadius 35 51 p)
         (fst (calculateTargetPositions SATURN s))
  /\ List.length (fst (calculateTargetPositions SATURN s)) = PARTICLE_COUNT.
Proof.
  apply (saturn_targets (fun _ => / 2)).
  intros n. lra.
Defined.

Lemma shapePoint_HEART s :
  unitDraws s ->
  let p := fst (shapePoint HEART s) in
  Rabs (vx p) <= 24 /\ Rabs (vy p) <= 31.5 /\ -2.5 <= vz p < 2.5
  /\ snd (shapePoint HEART s) = drop 2 s.
Proof.
  intros Hs. cbv zeta. pose proof (Hs 1%nat) as H1.
  cbn [shapePoint bind ret Math_random fst snd vx vy vz].
  set (t := s 0%nat * PI * 2).
  pose proof (cube_unit (sin t) (SIN_bound t)) as Hsin.
  pose proof (COS_bound t). pose proof (COS_bound (2 * t)).
  pose proof (COS_bound (3 * t)). pose proof (COS_bound (4 * t)).
  split; [apply Rabs_bound; lra|]. split; [apply Rabs_bound; lra|].
  split; [lra | reflexivity].
Qed.

Lemma shapePoint_inBox type s :
  unitDraws s ->
  inBox 51 (fst (shapePoint type s))
  /\ exists k, snd (shapePoint type s) = drop k s.
Proof.
  intros Hs. destruct type.
  - destruct (shapePoint_SPHERE s Hs) as [H E]. split; [|eauto].
    apply (atRadius_inBox 25 27) in H; [|lra].
    destruct H as [Hx [Hy Hz]]. unfold inBox. repeat split; lra.
  - destruct (shapePoint_HEART s Hs) as [Hx [Hy [Hz E]]]. split; [|eauto].
    unfold inBox. repeat split; try lra. apply Rabs_bound. lra.
  - split; [|exists 3%nat; reflexivity].
    pose proof (Hs 1%nat) as H1. pose proof (Hs 2%nat) as H2.
    cbn [shapePoint bind ret Math_random fst vx vy vz].
    pose proof (COS_bound (4 * (s 0%nat * PI * 2))) as Hc.
    assert (Ha : 0 <= Rabs (cos (4 * (s 0%nat * PI * 2))) <= 1).
    { split; [apply Rabs_pos | apply Rabs_bound; lra]. }
    set (A := 15 + Rabs (cos (4 * (s 0%nat * PI * 2))) * 20) in *.
    assert (HA : 15 <= A <= 35) by (unfold A; lra).
    pose proof (product_between A (0.8 + s 1%nat * 0.4) 15 35 0.8 1.2
                  ltac:(lra) ltac:(lra) HA ltac:(lra)) as Hr.
    set (r := A * (0.8 + s 1%nat * 0.4)) in *.
    pose proof (scaled_by_unit r (cos (s 0%nat * PI * 2)) ltac:(lra)
                  (COS_bound _)).
    pose proof (scaled_by_unit r (sin (s 0%nat * PI * 2)) ltac:(lra)
                  (SIN_bound _)).
    unfold inBox. cbn [vx vy vz]. repeat split; apply Rabs_bound; lra.
  - destruct (shapePoint_SATURN s Hs) as [Hring [Hplanet E]]. split; [|eauto].
    destruct (Rgt_dec (s 0%nat) 0.3) as [Hr|Hr].
    + apply (atRadius_inBox 35 51); [lra | auto].
    + apply (atRadius_inBox 12 13) in Hplanet; [|lra | exact Hr].
      destruct Hplanet as [Hx [Hy Hz]]. unfold inBox. repeat split; lra.
  - destruct (shapePoint_FIREWORKS s Hs) as [H E]. split; [|eauto].
    apply (atRadius_inBox 0 50) in H; [|lra].
    destruct H as [Hx [Hy Hz]]. unfold inBox. repeat split; lra.
Qed.

Lemma fillTargets_inBox type : forall count s,
  unitDraws s ->
  Forall (inBox 51) (fst (fillTargets type count s))
  /\ List.length (fst (fillTargets type count s)) = count.
Proof.
  induction count as [|n IH]; intros s Hs.
  - simpl. split; [constructor | reflexivity].
  - destruct (shapePoint_inBox type s Hs) as [HP [k Hnext]].
    specialize (IH (drop k s) (drop_unitDraws k s Hs)).
    simpl. unfold bind.
    destruct (shapePoint type s) as [p s'] eqn:E. simpl in HP, Hnext. subst s'.
    destruct (fillTargets type n (drop k s)) as [ps s''] eqn:E'.
    simpl in *. destruct IH as [IH1 IH2]. split; [constructor; auto | congruence].
Qed.

(** X21.  Whatever the shape and the draws, regenerating the targets
    yields exactly 15000 points, all within 51 of the origin on every
    axis; a Heart target moreover lies within 24 in x, 31.5 in y and 2.5
    in z. *)
Theorem targets_in_box type s :
  unitDraws s ->
  Forall (inBox 51) (fst (calculateTargetPositions type s))
  /\ List.length (fst (calculateTargetPositions type s)) = PARTICLE_COUNT
  /\ Forall (fun p => Rabs (vx p) <= 24 /\ Rabs (vy p) <= 31.5 /\ -2.5 <= vz p < 2.5)
            (fst (calculateTargetPositions HEART s)).
Proof.
  intros Hs. unfold calculateTargetPositions.
  destruct (fillTargets_inBox type PARTICLE_COUNT s Hs) as [H1 H2].
  split; [exact H1|]. split; [exact H2|].
  apply (fillTargets_Forall HEART _ 2); [|exact Hs].
  clear. intros s Hs. destruct (shapePoint_HEART s Hs) as [Hx [Hy [Hz E]]].
  auto.
Qed.

Lemma targets_in_box_witness :
  let s : RandomSource := fun _ => / 2 in
  Forall (inBox 51) (fst (calculateTargetPositions SATURN s))
  /\ List.length (fst (calculateTargetPositions SATURN s)) = PARTICLE_COUNT
  /\ Forall (fun p => Rabs (vx p) <= 24 /\ Rabs (vy p) <= 31.5 /\ -2.5 <= vz p < 2.5)
            (fst (calculateTargetPositions HEART s)).
Proof.
  apply (targets_in_box SATURN (fun _ => / 2)).
  intros n. lra.
Defined.

(** *** The initial cloud *)

Lemma initialParticle_spec s :
  unitDraws s ->
  let '(p, hue, size) := fst (initialParticle s) in
  (-50 <= vx p < 50 /\ -50 <= vy p < 50 /\ -50 <= vz p < 50)
  /\ 0.5 <= hue < 0.7 /\ 0 <= size < 1
  /\ snd (initialParticle s) = drop 5 s.
Proof.
  intros Hs.
  pose proof (Hs 0%nat). pose proof (Hs 1%nat). pose proof (Hs 2%nat).
  pose proof (Hs 3%nat). pose proof (Hs 4%nat).
  cbn [initialParticle bind ret Math_random fst snd vx vy vz].
  repeat split; lra.
Qed.

Lemma initialParticles_step n s :
  fst (initialParticles (S n) s)
  = fst (initialParticle s)
      :: fst (initialParticles n (snd (initialParticle s))).
Proof.
  cbn [initialParticles]. unfold bind at 1.
  destruct (initialParticle s) as [q s']. unfold bind at 1.
  cbn [fst snd]. destruct (initialParticles n s'). reflexivity.
Qed.

Lemma initialParticles_spec count : forall s,
  unitDraws s ->
  Forall (fun q => let '(p, hue, size) := q in
                   (-50 <= vx p < 50 /\ -50 <= vy p < 50 /\ -50 <= vz p < 50)
                   /\ 0.5 <= hue < 0.7 /\ 0 <= size < 1)
         (fst (initialParticles count s)).
Proof.
  induction count as [|n IH]; intros s Hs.
  - simpl. constructor.
  - pose proof (initialParticle_spec s Hs) as HP.
    specialize (IH (drop 5 s) (drop_unitDraws 5 s Hs)).
    rewrite initialParticles_step.
    destruct (initialParticle s) as [[[p hue] size] s'] eqn:E.
    cbn [fst snd] in HP |- *. destruct HP as [Hp [Hh [Hz Hd]]]. subst s'.
    constructor; auto.
Qed.

(** X22.  The start-up loop places every particle in the cube
    [-50, 50) x [-50, 50) x [-50, 50), gives it a hue in [0.5, 0.7) and a
    size in [0, 1), and creates exactly as many particles as asked for. *)
Theorem initial_cloud count : forall s,
  unitDraws s ->
  Forall (fun q => let '(p, hue, size) := q in
                   (-50 <= vx p < 50 /\ -50 <= vy p < 50 /\ -50 <= vz p < 50)
                   /\ 0.5 <= hue < 0.7 /\ 0 <= size < 1)
         (fst (initialParticles count s))
  /\ List.length (fst (initialParticles count s)) = count.
Proof.
  intros s Hs. split; [now apply initialParticles_spec|].
  clear Hs. revert s. induction count as [|n IH]; intros s.
  - reflexivity.
  - rewrite initialParticles_step. cbn [List.length]. now rewrite IH.
Qed.

Lemma initial_cloud_witness :
  let s : RandomSource := fun _ => / 2 in
  Forall (fun q => let '(p, hue, size) := q in
                   (-50 <= vx p < 50 /\ -50 <= vy p < 50 /\ -50 <= vz p < 50)
                   /\ 0.5 <= hue < 0.7 /\ 0 <= size < 1)
         (fst (initialParticles PARTICLE_COUNT s))
  /\ List.length (fst (initialParticles PARTICLE_COUNT s)) = PARTICLE_COUNT.
Proof.
  apply (initial_cloud PARTICLE_COUNT (fun _ => / 2)).
  intros n. lra.
Defined.

(** X23.  From start-up on the cloud stays in the box of half-width 64:
    a particle created by the start-up loop and morphing toward a target
    of any shape stays within 64 of the origin on every axis after any
    number of frames, as long as the interaction point is within 61.5 on
    every axis. *)
Theorem cloud_stays_in_view type it time draws i s s0 count target q :
  unitDraws s -> unitDraws s0 ->
  (forall k, unitDraws (draws k)) ->
  inBox 61.5 (point it) ->
  In target (fst (calculateTargetPositions type s)) ->
  In q (fst (initialParticles count s0)) ->
  forall n, inBox 64 (afterFrames it time draws i target n (fst (fst q))).
Proof.
  intros Hs Hs0 Hd Hit Ht Hq n.
  destruct (fillTargets_inBox type PARTICLE_COUNT s Hs) as [HT _].
  fold (calculateTargetPositions type) in HT.
  rewrite Forall_forall in HT. specialize (HT target Ht).
  pose proof (initialParticles_spec count s0 Hs0) as HI.
  rewrite Forall_forall in HI. specialize (HI q Hq).
  destruct q as [[p hue] size]. destruct HI as [[Hx [Hy Hz]] _].
  apply (afterFrames_inBox it time draws i target p 51 61.5 64); auto; try lra.
  unfold inBox. cbn [fst]. repeat split; apply Rabs_bound; lra.
Qed.

Lemma first_target type s :
  In (fst (shapePoint type s)) (fst (calculateTargetPositions type s)).
Proof.
  unfold calculateTargetPositions.
  replace PARTICLE_COUNT with (S (Nat.pred PARTICLE_COUNT))
    by (vm_compute; reflexivity).
  cbn [fillTargets]. unfold bind at 1.
  destruct (shapePoint type s) as [p s']. unfold bind at 1.
  destruct (fillTargets type (Nat.pred PARTICLE_COUNT) s') as [ps s''].
  left. reflexivity.
Qed.

Lemma cloud_stays_in_view_witness :
  let s : RandomSource := fun _ => / 2 in
  inBox 64 (afterFrames (pointOnAxis true) (fun k => INR k / 60)
              (fun _ => s) 0 (fst (shapePoint SPHERE s)) 600
              (fst (fst (fst (initialParticle s))))).
Proof.
  intros s.
  refine (cloud_stays_in_view SPHERE (pointOnAxis true) (fun k => INR k / 60)
            (fun _ => s) 0 s s 1 (fst (shapePoint SPHERE s))
            (fst (initialParticle s)) _ _ _ _ _ _ 600%nat).
  - intros n. unfold s. lra.
  - intros n. unfold s. lra.
  - intros k n. unfold s. lra.
  - unfold inBox, point, pointOnAxis. cbn [vx vy vz ix iy iz].
    repeat split; apply Rabs_bound; lra.
  - apply first_target.
  - left. reflexivity.
Defined.

End Shapes.
